(** * nozomi: interaction dispatch and embed pagination

    A shallow embedding of [src/controller.py] and of the privacy guard of
    [src/executor.py], with the properties of the payload splitter
    ([split_text], [paginate_embed]), of the response session
    ([Controller.Context]) and of the dispatcher ([Controller.dispatch_*],
    [Controller.execute]).

    Python values are modelled as follows: [str] is [string] (one [ascii]
    per character, [String.length] is [len]), [int] indices are [Z],
    [None]-able attributes are [option], dictionaries are [gmap], raised
    exceptions are the [Raise] outcome of a computation. A coroutine
    function called without [await] builds its coroutine and drops it:
    the body does not run. *)

From stdpp Require Import base option list gmap strings pretty.
From Stdlib Require Import Ascii ZArith Lia Permutation.

Set Warnings "-register-all".
Open Scope Z_scope.

(** ** Python strings *)

Module Str.

Abbreviation len := String.length.

(** Truth value of a [str]: the empty string is falsy. *)
Definition truthy (s : string) : bool :=
  match s with EmptyString => false | String _ _ => true end.

Fixpoint take (n : nat) (s : string) : string :=
  match n, s with
  | S n', String a r => String a (take n' r)
  | _, _ => EmptyString
  end.

Fixpoint drop (n : nat) (s : string) : string :=
  match n, s with
  | S n', String _ r => drop n' r
  | _, _ => s
  end.

(** Position denoted by a slice bound [i] in a sequence of length [n]:
    negative bounds count from the end, and the result is clamped to
    [0..n]. *)
Definition bound (n : nat) (i : Z) : nat :=
  if i <? 0 then Z.to_nat (Z.max 0 (Z.of_nat n + i))
  else Z.to_nat (Z.min i (Z.of_nat n)).

(** [s[:i]] and [s[i:]]. *)
Definition slice_to (s : string) (i : Z) : string := take (bound (len s) i) s.
Definition slice_from (s : string) (i : Z) : string := drop (bound (len s) i) s.

(** Left-to-right scan of the first [n] characters of [s], the current
    one having index [i]; [found] is the last match seen so far. *)
Fixpoint rfind_go (c : ascii) (s : string) (i : Z) (n : nat) (found : Z) : Z :=
  match n, s with
  | S n', String a r =>
      rfind_go c r (i + 1) n' (if Ascii.eqb a c then i else found)
  | _, _ => found
  end.

(** [s.rfind(c, 0, stop)] for a one-character needle [c]: the highest
    index below the (clamped) [stop] holding [c], or [-1]. *)
Definition rfind (c : ascii) (s : string) (stop : Z) : Z :=
  rfind_go c s 0 (bound (len s) stop) (-1).

Definition newline : ascii := "010"%char.
Definition space : ascii := " "%char.

Definition of_char (c : ascii) : string := String c EmptyString.

(** [c * n] *)
Definition replicate (n : nat) (c : ascii) : string :=
  Nat.iter n (String c) EmptyString.

End Str.

(** ** Exceptions and outcomes *)

(** The exception classes the two modules raise or catch. [Exception]
    stands for any other class deriving from [Exception] that an action may
    raise, [BaseException] for one that does not derive from it (such as
    [asyncio.CancelledError]). *)
Inductive pyclass :=
| TypeError | ValueError | KeyError | AttributeError | NotImplementedError
| NozomiError | Exception | BaseException.

(** ** Embeds (the part of [hikari.Embed] the splitter touches) *)

Record EmbedField := mkField {
  name : string;
  value : string;
  is_inline : bool
}.

Record Embed := mkEmbed {
  title : option string;
  description : option string;
  fields : list EmbedField
}.

(** Values handed around by the dispatcher: action results, exception
    arguments, keyword arguments. *)
Inductive pyval :=
| VNone
| VUndefined                       (* hikari.UNDEFINED *)
| VEphemeral                       (* hikari.MessageFlag.EPHEMERAL *)
| VBool (b : bool)
| VInt (z : Z)
| VStr (s : string)
| VEmbed (e : Embed)
| VEmbeds (l : list Embed).

Record exn := mkExn { exn_class : pyclass; exn_args : list pyval }.

Inductive outcome (A : Type) :=
| Return (a : A)
| Raise (e : exn).
Arguments Return {A} a.
Arguments Raise {A} e.

Definition raise {A} (c : pyclass) (msg : string) : outcome A :=
  Raise (mkExn c [VStr msg]).

Definition obind {A B} (m : outcome A) (k : A -> outcome B) : outcome B :=
  match m with
  | Return a => k a
  | Raise e => Raise e
  end.

(** ** split_text *)

Definition split_text (s : string) (limit : Z) : string * string :=
  if Z.of_nat (Str.len s) <? limit then (s, ""%string)
  else
    let index := Str.rfind Str.newline s limit in
    let rindex := index + 1 in
    if index <? 0 then
      let index := Str.rfind Str.space s limit in
      let rindex := index + 1 in
      if index <? 0 then
        let index := limit in
        let rindex := index in
        (Str.slice_to s index, Str.slice_from s rindex)
      else (Str.slice_to s index, Str.slice_from s rindex)
    else (Str.slice_to s index, Str.slice_from s rindex).

(** ** paginate_embed *)

(** The inner loop of [paginate_embed]:
    [while embed.fields and (len(embed.fields) > 15 or description)] moves
    the last field of the page to the end of the carry-over list. Each turn
    removes one field, so [length efields] turns are enough; [n] counts
    them down. *)
Fixpoint spill (n : nat) (efields : list EmbedField) (description : string)
    (carry : list EmbedField) : list EmbedField * list EmbedField :=
  match n with
  | O => (efields, carry)
  | S n' =>
      match last efields with
      | Some f =>
          if (15 <? Z.of_nat (length efields)) || Str.truthy description
          then spill n' (removelast efields) description (carry ++ [f])
          else (efields, carry)
      | None => (efields, carry)
      end
  end.

(** [base_title + f" ({page})"]: adding a string to [None] raises. *)
Definition page_title (base_title : option string) (page : nat) : outcome string :=
  match base_title with
  | Some t => Return (t +:+ " (" +:+ pretty page +:+ ")")
  | None => raise TypeError "unsupported operand type(s) for +: 'NoneType' and 'str'"
  end.

(** [embed.add_field(name=f.name, value=f.value, inline=f.is_inline)] *)
Definition add_field (efields : list EmbedField) (f : EmbedField) : list EmbedField :=
  efields ++ [mkField (name f) (value f) (is_inline f)].

(** Lines 51 and 52: [if embed.description:], false on [None] and on the
    empty string, then the cut. Returns the new [embed.description] and
    the value of [description]. *)
Definition cut_body (description : option string) : option string * string :=
  match description with
  | Some d =>
      if Str.truthy d
      then let '(a, b) := split_text d 2048 in (Some a, b)
      else (Some d, ""%string)
  | None => (None, ""%string)
  end.

(** First half of a turn of the outer [while embed:] loop: the body is cut,
    fields are moved to the carry-over list. Returns the page as it is
    appended to [embeds], and the values of [description] and [fields]. *)
Definition fill_page (embed : Embed) : Embed * string * list EmbedField :=
  let '(body, description) := cut_body (description embed) in
  let '(efields, fields) :=
    spill (length (fields embed)) (fields embed) description [] in
  (mkEmbed (title embed) body efields, description, fields).

(** The test [if description or fields:]. *)
Definition carry_over (description : string) (fields : list EmbedField) : bool :=
  Str.truthy description || bool_decide (fields ≠ []).

(** Second half of the turn: the next value of [embed], [page] being
    already incremented. [None] ends the loop. *)
Definition next_page (base_title : option string) (page : nat)
    (description : string) (fields : list EmbedField) : outcome (option Embed) :=
  if carry_over description fields
  then obind (page_title base_title page) (fun t =>
         Return (Some (mkEmbed (Some t) (Some description)
                               (foldl add_field [] fields))))
  else Return None.

(** The outer loop, [fuel] bounding the number of turns; [None] when the
    bound is hit before the loop ends ([paginate_loop_enough]: that does
    not happen with [paginate_fuel] turns). *)
Fixpoint paginate_loop (fuel : nat) (base_title : option string) (page : nat)
    (embed : Embed) (embeds : list Embed) : option (outcome (list Embed)) :=
  match fuel with
  | O => None
  | S fuel' =>
      let '(emitted, description, fields) := fill_page embed in
      let embeds := embeds ++ [emitted] in
      match next_page base_title (S page) description fields with
      | Raise e => Some (Raise e)
      | Return None => Some (Return embeds)
      | Return (Some embed') =>
          paginate_loop fuel' base_title (S page) embed' embeds
      end
  end.

(** The body text of a document; an absent description has no text. *)
Definition text (description : option string) : string :=
  match description with Some d => d | None => ""%string end.
Definition body (e : Embed) : string := text (description e).

Definition paginate_fuel (embed : Embed) : nat :=
  S (Str.len (body embed) + length (fields embed)).

(** [if len(embeds) > 10: raise ValueError(...)] *)
Definition check_pages (embeds : list Embed) : outcome (list Embed) :=
  if 10 <? Z.of_nat (length embeds)
  then raise ValueError "Embed too large to paginate"
  else Return embeds.

Definition paginate_embed (embed : Embed) : outcome (list Embed) :=
  match paginate_loop (paginate_fuel embed) (title embed) 1 embed [] with
  | Some r => obind r check_pages
  | None => raise BaseException "paginate_embed: loop bound exceeded"
  end.

(** Whether the first turn of the loop leaves something for a second
    page. *)
Definition second_page_needed (embed : Embed) : bool :=
  let '(_, description, fields) := fill_page embed in
  carry_over description fields.

(** The limits every page has to meet. *)
Definition within_limits (page : Embed) : Prop :=
  (Str.len (body page) <= 2048)%nat /\ (length (fields page) <= 15)%nat.

(** The bodies of the pages, one after the other. *)
Definition concat_bodies (pages : list Embed) : string :=
  foldr String.append ""%string (body <$> pages).

(** The field lists of the pages, one after the other. *)
Definition concat_fields (pages : list Embed) : list EmbedField :=
  concat (fields <$> pages).

(** A dropped separator is one character at most: nothing (hard cut, or no
    cut at all), a newline or a space. *)
Definition separator (sep : string) : bool :=
  bool_decide (sep = ""%string)
  || bool_decide (sep = Str.of_char Str.newline)
  || bool_decide (sep = Str.of_char Str.space).

(** The page bodies put back together, the [i]-th body followed by the
    [i]-th separator. *)
Fixpoint rejoin (bodies seps : list string) : string :=
  match bodies, seps with
  | b :: bodies', sep :: seps' => b +:+ sep +:+ rejoin bodies' seps'
  | _, _ => ""%string
  end.

(** The greedy algorithm of section 4.2 of the specification (steps 1 to
    4), titles left aside: fill a page, and start a new one from the
    carry-over as long as there is one. Each page is a body and a field
    list. *)
Fixpoint greedy_pages (fuel : nat) (embed : Embed) : list (string * list EmbedField) :=
  match fuel with
  | O => []
  | S fuel' =>
      let '(emitted, description, carried) := fill_page embed in
      (body emitted, fields emitted) ::
      if carry_over description carried
      then greedy_pages fuel' (mkEmbed None (Some description) (foldl add_field [] carried))
      else []
  end.

Definition greedy_page_count (embed : Embed) : nat :=
  length (greedy_pages (paginate_fuel embed) embed).

(** ** Interactions *)

Inductive InteractionType :=
| PING | APPLICATION_COMMAND | MESSAGE_COMPONENT | AUTOCOMPLETE | MODAL_SUBMIT.

Inductive OptionType :=
| SUB_COMMAND | SUB_COMMAND_GROUP | STRING | INTEGER | BOOLEAN
| USER | CHANNEL | ROLE | MENTIONABLE | FLOAT | ATTACHMENT.

(** [hikari.CommandInteractionOption]: [options] is [None] or the nested
    options of a sub-command (group). *)
Inductive CommandInteractionOption :=
| mkOption (name : string) (type : OptionType) (value : pyval)
           (options : option (list CommandInteractionOption)).

Definition option_name (o : CommandInteractionOption) : string :=
  match o with mkOption n _ _ _ => n end.
Definition option_type (o : CommandInteractionOption) : OptionType :=
  match o with mkOption _ t _ _ => t end.
Definition option_value (o : CommandInteractionOption) : pyval :=
  match o with mkOption _ _ v _ => v end.
Definition option_options (o : CommandInteractionOption)
    : option (list CommandInteractionOption) :=
  match o with mkOption _ _ _ l => l end.

(** The attributes of the four interaction classes the module reads.
    [i_repr] is the text [f"{interaction}"] formats to. *)
Record Interaction := mkInteraction {
  i_type : InteractionType;
  i_id : Z;
  i_token : string;
  i_application_id : Z;
  i_custom_id : string;
  i_command_id : Z;
  i_options : option (list CommandInteractionOption);
  i_repr : string
}.

(** [isinstance(interaction, hikari.ComponentInteraction)] *)
Definition is_component (i : Interaction) : bool :=
  match i_type i with MESSAGE_COMPONENT => true | _ => false end.

(** ** The REST collaborator *)

Inductive ResponseType :=
| MESSAGE_CREATE | MESSAGE_UPDATE
| DEFERRED_MESSAGE_CREATE | DEFERRED_MESSAGE_UPDATE.

(** The [response_type] argument as [send] and [defer] build it: the enum
    member, or the one-element tuple of line 172. *)
Inductive response_type_arg :=
| Member (t : ResponseType)
| Tuple1 (t : ResponseType).

(** First argument of [create_interaction_response]: [defer] passes the
    interaction object, [send] its id. *)
Inductive interaction_ref :=
| ByObject (i : Interaction)
| ById (id : Z).

(** The calls made on the REST client. Positional arguments after the
    fixed ones are [args]; keyword arguments are [kwargs]. The methods of
    [hikari.api.RESTClient] are coroutine functions: a call builds a
    coroutine, and the request goes out when that coroutine is awaited. *)
Inductive rest_call :=
| create_interaction_response (i : interaction_ref) (token : string)
    (type : response_type_arg) (kwargs : gmap string pyval)
| execute_webhook (application_id : Z) (token : string)
    (args : list pyval) (kwargs : gmap string pyval)
| edit_interaction_response (application_id : Z) (token : string)
    (args : list pyval) (kwargs : gmap string pyval).

Record RESTClient := mkREST { rest_name : string }.
Record Message := mkMessage { message_id : Z }.

(** ** Controller.Context *)

Record Context := mkContext {
  c_interaction : Interaction;
  c_rest : option RESTClient;
  c_message : option Message;
  c_ephemeral : option bool
}.

(** [Context(interaction, rest)]: no message, privacy not chosen yet. *)
Definition Context_init (i : Interaction) (rest : option RESTClient) : Context :=
  mkContext i rest None None.

(** Computations on one context object: the context is mutated in place,
    the calls made on the REST client are appended to a log, in the order
    they are made, and the computation returns or raises. The log tells
    which methods were called and with what arguments, not that a request
    went out. *)
Definition M (A : Type) : Type := Context -> outcome A * Context * list rest_call.

Global Instance M_ret : MRet M := fun A a self => (Return a, self, []).
Global Instance M_bind : MBind M := fun A B k m self =>
  match m self with
  | (Return a, self', calls) =>
      let '(r, self'', calls') := k a self' in (r, self'', calls ++ calls')
  | (Raise e, self', calls) => (Raise e, self', calls)
  end.

Definition lift {A} (o : outcome A) : M A := fun self => (o, self, []).
Definition get : M Context := fun self => (Return self, self, []).
Definition set_ephemeral (b : bool) : M unit := fun self =>
  (Return (), mkContext (c_interaction self) (c_rest self) (c_message self) (Some b), []).

(** Calling an [async def] function only builds a coroutine object; its
    body runs when the coroutine is awaited. *)
Definition coroutine (A : Type) : Type := M A.
Definition call_async {A} (body : M A) : M (coroutine A) := mret body.
Definition await {A} (c : coroutine A) : M A := c.

(** [self.rest.<method>(...)]: the attribute access fails when [rest] is
    [None]; otherwise the method is called, which the log records, and it
    returns a coroutine. The request is the business of that coroutine,
    once awaited; it touches nothing of the session. *)
Definition client_method (call : rest_call) : M (coroutine unit) := fun self =>
  match c_rest self with
  | Some _ => (Return (mret ()), self, [call])
  | None =>
      (raise AttributeError "'NoneType' object has no attribute", self, [])
  end.

(** The call as lines 149, 175, 182 and 189 write it: a statement of its
    own, without [await]. The coroutine the client returns is dropped, as
    the one of [context.send(response)] is at line 259, so that no request
    goes out. *)
Definition rest_method (call : rest_call) : M unit :=
  _ ← client_method call;
  mret ().

(** [paginate_embed(kwargs.pop("embed"))] on what the keyword may hold:
    an [Embed]; the empty string, which has a [title] attribute and is
    falsy, so that the loop is not entered; anything else of [pyval] lacks
    [title] or [description]. *)
Definition paginate_value (v : pyval) : outcome (list Embed) :=
  match v with
  | VEmbed e => paginate_embed e
  | VStr EmptyString => Return []
  | _ => raise AttributeError "object has no attribute 'title' or 'description'"
  end.

(** [dict.setdefault] *)
Definition setdefault (k : string) (v : pyval) (d : gmap string pyval)
    : gmap string pyval :=
  match d !! k with Some _ => d | None => <[k:=v]> d end.

Definition flag_of (ephemeral : bool) : pyval :=
  if ephemeral then VEphemeral else VUndefined.

(** [Controller.Context.defer] *)
Definition defer (ephemeral : bool) (follow_up : bool) : M unit :=
  self ← get;
  if bool_decide (is_Some (c_message self)) then mret ()
  else
    _ ← set_ephemeral ephemeral;
    let flags := flag_of ephemeral in
    let type :=
      if is_component (c_interaction self) && negb follow_up
      then DEFERRED_MESSAGE_UPDATE else DEFERRED_MESSAGE_CREATE in
    rest_method (create_interaction_response
      (ByObject (c_interaction self)) (i_token (c_interaction self))
      (Member type) {["flags" := flags]}).

(** Lines 159 and 160 of [send]: an [embed] keyword is popped, paginated
    and stored under [embeds] unless that keyword is there already. *)
Definition settle_embed (kwargs : gmap string pyval) : outcome (gmap string pyval) :=
  match kwargs !! "embed" with
  | Some v =>
      obind (paginate_value v) (fun embeds =>
        Return (setdefault "embeds" (VEmbeds embeds) (delete "embed" kwargs)))
  | None => Return kwargs
  end.

(** [Controller.Context.send] *)
Definition send (args : list pyval) (ephemeral : bool) (follow_up : bool)
    (kwargs : gmap string pyval) : M unit :=
  kwargs ← lift (settle_embed kwargs);
  self ← get;
  flags ←
    (if bool_decide (c_ephemeral self = None)
        || (follow_up && bool_decide (is_Some (c_message self)))
     then _ ← set_ephemeral ephemeral; mret (flag_of ephemeral)
     else mret VUndefined);
  let kwargs := setdefault "flags" flags kwargs in
  if negb (bool_decide (is_Some (c_message self))) then
    let type :=
      if is_component (c_interaction self) && negb follow_up
      then Tuple1 MESSAGE_UPDATE else Member MESSAGE_CREATE in
    rest_method (create_interaction_response
      (ById (i_id (c_interaction self))) (i_token (c_interaction self)) type kwargs)
  else if follow_up then
    rest_method (execute_webhook
      (i_application_id (c_interaction self)) (i_token (c_interaction self))
      args kwargs)
  else
    (* [*args**kwargs] is [*(args ** kwargs)]: after the method is looked
       up on [self.rest], raising a tuple to the power of a dict fails. *)
    match c_rest self with
    | Some _ =>
        lift (raise TypeError
          "unsupported operand type(s) for ** or pow(): 'tuple' and 'dict'")
    | None => lift (raise AttributeError "'NoneType' object has no attribute")
    end.

(** ** Actions and the registry *)

(** What a registered command does when called with the context and the
    keyword options: any computation on the context. *)
Definition Command : Type := gmap string pyval -> M pyval.

(** An entry of a registry table: a [Command], which is callable and not
    subscriptable, or a [dict] of entries keyed by sub-command name. *)
Inductive node :=
| Leaf (command : Command)
| Group (children : gmap string node).

(** The tables of the module [registry], which [controller.py] imports
    and only reads. *)
Record Registry := mkRegistry {
  COMMAND_ID_TO_INTERACTION : gmap Z node;
  COMPONENT_ID_TO_INTERACTION : gmap string node;
  AUTOCOMPLETE_ID_TO_INTERACTION : gmap Z node;
  MODAL_ID_TO_INTERACTION : gmap string node
}.

(** [table[key]] *)
Definition table_lookup `{Countable K} (table : gmap K node) (key : K)
    (shown : pyval) : outcome node :=
  match table !! key with
  | Some n => Return n
  | None => Raise (mkExn KeyError [shown])
  end.

(** [action[name]] *)
Definition subscript (action : node) (name : string) : outcome node :=
  match action with
  | Group children =>
      match children !! name with
      | Some n => Return n
      | None => Raise (mkExn KeyError [VStr name])
      end
  | Leaf _ => raise TypeError "'Command' object is not subscriptable"
  end.

(** [await action(context, **options)] *)
Definition call (action : node) (options : gmap string pyval) : M pyval :=
  match action with
  | Leaf command => command options
  | Group _ => lift (raise TypeError "'dict' object is not callable")
  end.

(** Truth value of a response. *)
Definition truthy (v : pyval) : bool :=
  match v with
  | VNone | VUndefined => false
  | VEphemeral => true
  | VBool b => b
  | VInt z => negb (z =? 0)
  | VStr s => Str.truthy s
  | VEmbed _ => true
  | VEmbeds l => bool_decide (l ≠ [])
  end.

(** [except NozomiError] and [except Exception]: every class of [pyclass]
    derives from [Exception] but [BaseException] itself. *)
Definition is_NozomiError (e : exn) : bool :=
  match exn_class e with NozomiError => true | _ => false end.
Definition is_Exception (e : exn) : bool :=
  match exn_class e with BaseException => false | _ => true end.

(** The [try] statement of [execute]: the value bound to [response]. *)
Definition try_action (action : node) (options : gmap string pyval) : M pyval :=
  fun self =>
    match await (call action options) self with
    | (Return response, self', calls) => (Return response, self', calls)
    | (Raise err, self', calls) =>
        if is_NozomiError err then
          (Return (match exn_args err with
                   | arg :: _ => arg
                   | [] => VStr "Failed"
                   end), self', calls)
        else if is_Exception err then
          (Return (VStr "Internal server error"), self', calls)
        else (Raise err, self', calls)
    end.

(** Lines 256 to 259 of [execute]: a truthy response is paginated when it
    is an embed, then [context.send] is called and the coroutine it
    returns is dropped. *)
Definition respond (response : pyval) : M unit :=
  if truthy response then
    response ←
      match response with
      | VEmbed e => embeds ← lift (paginate_embed e); mret (VEmbeds embeds)
      | _ => mret response
      end;
    _ ← call_async (send [response] false false ∅);
    mret ()
  else mret ().

(** [Controller.execute] *)
Definition execute (action : node) (options : gmap string pyval) : M unit :=
  response ← try_action action options;
  respond response.

(** ** Controller *)

(** The three classes that define [context]. Only [Controller] defines the
    [dispatch_*] methods; the other two name no base class. *)
Inductive ControllerClass := Controller | GatewayController | RESTController.

(** [self.Context]: the nested class is an attribute of [Controller]
    alone. The other two classes name no base class, so that the lookup
    fails on their instances. *)
Definition Context_class (self : ControllerClass)
    : outcome (Interaction -> option RESTClient -> Context) :=
  match self with
  | Controller => Return Context_init
  | GatewayController =>
      raise AttributeError "'GatewayController' object has no attribute 'Context'"
  | RESTController =>
      raise AttributeError "'RESTController' object has no attribute 'Context'"
  end.

(** [self.context] applied to the positional arguments [args]: every
    definition takes exactly one argument besides [self]. The REST client
    of a gateway bot is [bot_rest]; [RESTController.context] passes none,
    which leaves [rest] at its default [None]. In both, [self.Context] is
    looked up before the arguments are evaluated. *)
Definition context (self : ControllerClass) (bot_rest : RESTClient)
    (args : list Interaction) : outcome Context :=
  match args with
  | [interaction] =>
      match self with
      | Controller => Raise (mkExn NotImplementedError [])
      | GatewayController =>
          obind (Context_class self)
            (fun cls => Return (cls interaction (Some bot_rest)))
      | RESTController =>
          obind (Context_class self)
            (fun cls => Return (cls interaction None))
      end
  | _ => raise TypeError "context() missing 1 required positional argument: 'interaction'"
  end.

Definition is_sub_command (o : CommandInteractionOption) : bool :=
  match option_type o with
  | SUB_COMMAND | SUB_COMMAND_GROUP => true
  | _ => false
  end.

(** The loop of [dispatch_command] once its test has passed on the head
    option [o]: one level down the tree, then the test again on the head
    of the nested options. Returns the final [action] and [options]. *)
Fixpoint descend (interaction : Interaction) (o : CommandInteractionOption)
    (action : node) {struct o}
    : outcome (node * option (list CommandInteractionOption)) :=
  match o with
  | mkOption name _ _ options =>
      match subscript action name with
      | Raise _ =>
          raise ValueError ("unexpected subcommand " +:+ i_repr interaction)
      | Return action =>
          match options with
          | Some (o' :: _) =>
              if is_sub_command o' then descend interaction o' action
              else Return (action, options)
          | _ => Return (action, options)
          end
      end
  end.

(** Lines 209 to 222 of [dispatch_command]: table lookup and the loop. *)
Definition resolve_command (registry : Registry) (interaction : Interaction)
    : outcome (node * option (list CommandInteractionOption)) :=
  let options := i_options interaction in
  obind (table_lookup (COMMAND_ID_TO_INTERACTION registry) (i_id interaction)
           (VInt (i_id interaction)))
    (fun action =>
       match options with
       | Some (o :: _) =>
           if is_sub_command o then descend interaction o action
           else Return (action, options)
       | _ => Return (action, options)
       end).

(** The dictionary comprehension of line 224; iterating [None] raises. *)
Definition option_mapping (snakecase : string -> string)
    (options : option (list CommandInteractionOption))
    : outcome (gmap string pyval) :=
  match options with
  | Some l =>
      Return (foldl (fun d o => <[snakecase (option_name o) := option_value o]> d) ∅ l)
  | None => raise TypeError "'NoneType' object is not iterable"
  end.

(** A dispatch ends with what it returned or raised and with the calls
    made on the REST client on the way. *)
Definition dispatched : Type := outcome unit * list rest_call.

Definition run_execute (action : node) (options : gmap string pyval)
    (context : Context) : dispatched :=
  let '(r, _, calls) := execute action options context in (r, calls).

Section Dispatch.

(** The collaborators: the registry tables, [stringcase.snakecase], the
    class of [self] and the REST client of its bot. *)
Variable registry : Registry.
Variable snakecase : string -> string.
Variable self : ControllerClass.
Variable bot_rest : RESTClient.

Definition dispatch_command (interaction : Interaction) : dispatched :=
  match resolve_command registry interaction with
  | Raise e => (Raise e, [])
  | Return (action, options) =>
      match context self bot_rest [] with
      | Raise e => (Raise e, [])
      | Return context =>
          match option_mapping snakecase options with
          | Raise e => (Raise e, [])
          | Return options => run_execute action options context
          end
      end
  end.

Definition dispatch_with `{Countable K} (table : gmap K node) (key : K)
    (shown : pyval) : dispatched :=
  match table_lookup table key shown with
  | Raise e => (Raise e, [])
  | Return action =>
      match context self bot_rest [] with
      | Raise e => (Raise e, [])
      | Return context => run_execute action ∅ context
      end
  end.

Definition dispatch_component (interaction : Interaction) : dispatched :=
  dispatch_with (COMPONENT_ID_TO_INTERACTION registry)
    (i_custom_id interaction) (VStr (i_custom_id interaction)).

Definition dispatch_autocomplete (interaction : Interaction) : dispatched :=
  dispatch_with (AUTOCOMPLETE_ID_TO_INTERACTION registry)
    (i_command_id interaction) (VInt (i_command_id interaction)).

Definition dispatch_modal (interaction : Interaction) : dispatched :=
  dispatch_with (MODAL_ID_TO_INTERACTION registry)
    (i_custom_id interaction) (VStr (i_custom_id interaction)).

(** [dispatch_interaction(event)], on [event.interaction]. *)
Definition dispatch_interaction (interaction : Interaction) : dispatched :=
  match i_type interaction with
  | APPLICATION_COMMAND => dispatch_command interaction
  | MESSAGE_COMPONENT => dispatch_component interaction
  | AUTOCOMPLETE => dispatch_autocomplete interaction
  | MODAL_SUBMIT => dispatch_modal interaction
  | PING => (Return (), [])
  end.

End Dispatch.

(** ** Executor.Context.send, lines 41 to 47

    The privacy guard at the head of the method, on the two attributes of
    the executor it reads and writes. The statements after it are cut off
    in the source. *)
Record Executor := mkExecutor {
  x_ephemeral : option bool;
  x_message : option Message
}.

Definition Executor_send_guard (follow_up : bool) (ephemeral : option bool)
    (executor : Executor) : outcome Executor :=
  match ephemeral with
  | Some b =>
      if (follow_up && bool_decide (is_Some (x_message executor)))
         || bool_decide (x_ephemeral executor = None)
      then Return (mkExecutor (Some b) (x_message executor))
      else raise ValueError "ephemeral has already been set, cannot reset"
  | None => Return executor
  end.

(** ** Sample documents *)

Definition numbered_field (i : nat) : EmbedField :=
  mkField (pretty i) "v" false.

Definition numbered_fields (n : nat) : list EmbedField :=
  numbered_field <$> seq 0 n.

(** A body of 2049 characters whose only space is at index 2047, and two
    fields. *)
Definition doc_long_body : Embed :=
  mkEmbed (Some "X"%string)
          (Some (Str.replicate 2047 "a" +:+ " b"))
          (numbered_fields 2).

(** Twenty fields and no body. *)
Definition doc_twenty_fields : Embed :=
  mkEmbed (Some "X"%string) None (numbered_fields 20).

(** 151 fields and no body, without and with a title. *)
Definition doc_untitled_151 : Embed := mkEmbed None None (numbered_fields 151).
Definition doc_titled_151 : Embed :=
  mkEmbed (Some "X"%string) None (numbered_fields 151).

(** ** Sample interactions *)

Definition sample_rest : RESTClient := mkREST "rest".

(** The nested options of [/settings notifications enable channel:general]. *)
Definition enable_options : list CommandInteractionOption :=
  [mkOption "channel" STRING (VStr "general") None].

Definition settings_options : list CommandInteractionOption :=
  [mkOption "notifications" SUB_COMMAND_GROUP VNone
     (Some [mkOption "enable" SUB_COMMAND VNone (Some enable_options)])].

Definition settings_interaction : Interaction :=
  mkInteraction APPLICATION_COMMAND 1 "token" 7 "" 1
    (Some settings_options) "CommandInteraction(id=1)".

(** The same command with a sub-command group nobody registered. *)
Definition unknown_group_interaction : Interaction :=
  mkInteraction APPLICATION_COMMAND 1 "token" 7 "" 1
    (Some [mkOption "privacy" SUB_COMMAND_GROUP VNone
             (Some [mkOption "enable" SUB_COMMAND VNone (Some enable_options)])])
    "CommandInteraction(id=1)".

(** An action that answers with a text, one that raises the error shown
    to the user, one that raises something else. *)
Definition enable_command : Command := fun _ => mret (VStr "enabled").
Definition refusing_command : Command :=
  fun _ => lift (Raise (mkExn NozomiError [VStr "Not allowed"])).
Definition crashing_command : Command :=
  fun _ => lift (Raise (mkExn Exception [VStr "database is down"])).

(** [settings] is command 1, with [enable] registered under
    [notifications]. *)
Definition settings_registry : Registry :=
  mkRegistry
    {[ 1 := Group {[ "notifications"%string :=
                       Group {[ "enable"%string := Leaf enable_command ]} ]} ]}
    ∅ ∅ ∅.

(** A fresh session of a gateway bot on [settings_interaction]. *)
Definition fresh_session : Context :=
  Context_init settings_interaction (Some sample_rest).

(** The same session once a message is recorded on it. *)
Definition session_with_message : Context :=
  mkContext settings_interaction (Some sample_rest) (Some (mkMessage 42)) (Some false).

(** ** Resolution as the specification words it *)

(** [resolve(kind, identifier, subpath)] of section 4.1: from the
    top-level entry, one registered child per name of [subpath]; [None]
    where a named child is absent. *)
Fixpoint walk (action : node) (subpath : list string) : option node :=
  match subpath with
  | [] => Some action
  | name :: subpath' =>
      match action with
      | Group children =>
          match children !! name with
          | Some child => walk child subpath'
          | None => None
          end
      | Leaf _ => None
      end
  end.

(** The sub-command path an interaction carries from the marker [o] on:
    the names of the nested sub-command (group) markers, and the options
    below the last of them. *)
Fixpoint sub_command_path (o : CommandInteractionOption)
    : list string * option (list CommandInteractionOption) :=
  match o with
  | mkOption name _ _ options =>
      match options with
      | Some (o' :: _) =>
          if is_sub_command o'
          then let '(subpath, rest) := sub_command_path o' in (name :: subpath, rest)
          else ([name], options)
      | _ => ([name], options)
      end
  end.

(** An outcome that is an exception of class [c]. *)
Definition fails_with {A} (c : pyclass) (o : outcome A) : Prop :=
  match o with
  | Raise e => exn_class e = c
  | Return _ => False
  end.

(** The calls of [create_interaction_response], the method that creates
    the initial response of an interaction, and of [execute_webhook], the
    one that creates a follow-up. *)
Definition is_initial_response (call : rest_call) : bool :=
  match call with
  | create_interaction_response _ _ _ _ => true
  | _ => false
  end.

Definition is_follow_up (call : rest_call) : bool :=
  match call with
  | execute_webhook _ _ _ _ => true
  | _ => false
  end.

(** ** Further definitions *)

(** Whether the character [c] occurs in [s]. *)
Fixpoint occurs (c : ascii) (s : string) : bool :=
  match s with
  | EmptyString => false
  | String a r => Ascii.eqb a c || occurs c r
  end.

(** The keyword arguments of a call on the REST client. *)
Definition call_kwargs (call : rest_call) : gmap string pyval :=
  match call with
  | create_interaction_response _ _ _ kwargs => kwargs
  | execute_webhook _ _ _ kwargs => kwargs
  | edit_interaction_response _ _ _ kwargs => kwargs
  end.

(** Whether a [send] fixes the privacy of the session: on first use, or
    as a follow-up to a recorded message (line 162). *)
Definition fixes_privacy (self : Context) (follow_up : bool) : bool :=
  bool_decide (c_ephemeral self = None)
  || (follow_up && bool_decide (is_Some (c_message self))).

(** The session with its privacy flag set. *)
Definition with_ephemeral (self : Context) (b : bool) : Context :=
  mkContext (c_interaction self) (c_rest self) (c_message self) (Some b).

(** The value of the last option of [l] whose normalized name is [key]. *)
Definition last_value (snakecase : string -> string) (key : string)
    (l : list CommandInteractionOption) : option pyval :=
  option_value <$>
    last (filter (fun o => snakecase (option_name o) = key) l).

(** ** Registration of commands *)

(** What [Controller.command] decorates: the runtime type the decorator
    tests with [isinstance], and the [name] attribute [Command.__init__]
    reads, if the object has one. *)
Inductive DecoratedType := FunctionType | MethodType | ClassType | OtherType.

Record Decorated := mkDecorated {
  d_type : DecoratedType;
  d_name : option string
}.

Inductive CommandClass := FunctionCommand | MethodCommand | ClassCommand.

(** An instance of one of the subclasses of [Command]. *)
Record CommandObject := mkCommandObject {
  cmd_class : CommandClass;
  cmd_decorated : Decorated;
  cmd_name : string;
  cmd_description : string
}.

(** [given or stringcase.spinalcase(decorated.name)]: the right operand is
    evaluated when [given] is [None] or empty, and reading the attribute
    fails on an object without it. *)
Definition or_spinalcase (spinalcase : string -> string) (given : option string)
    (decorated : Decorated) : outcome string :=
  match given with
  | Some (String a r) => Return (String a r)
  | _ =>
      match d_name decorated with
      | Some n => Return (spinalcase n)
      | None => raise AttributeError "object has no attribute 'name'"
      end
  end.

(** [Command.__init__], run for the class [cls]: returns the instance and
    the table [registry.COMMANDS] after the assignment of line 79. *)
Definition Command_init (spinalcase : string -> string) (cls : CommandClass)
    (decorated : Decorated) (name description : option string)
    (COMMANDS : gmap string CommandObject)
    : outcome (CommandObject * gmap string CommandObject) :=
  obind (or_spinalcase spinalcase name decorated) (fun name =>
  obind (or_spinalcase spinalcase description decorated) (fun description =>
    let self := mkCommandObject cls decorated name description in
    Return (self, <[name := self]> COMMANDS))).

(** [Controller.CommandDecorator]: [__init__] keeps [name or None] and
    [parent]; [__call__] picks the class by the type of [decorated] and
    passes it nothing else. *)
Record CommandDecorator := mkCommandDecorator {
  decorator_name : option string;
  decorator_parent : option CommandObject
}.

Definition CommandDecorator_init (name : option string)
    (parent : option CommandObject) : CommandDecorator :=
  mkCommandDecorator
    (match name with Some (String a r) => Some (String a r) | _ => None end)
    parent.

Definition CommandDecorator_call (spinalcase : string -> string)
    (self : CommandDecorator) (decorated : Decorated)
    (COMMANDS : gmap string CommandObject)
    : outcome (CommandObject * gmap string CommandObject) :=
  match d_type decorated with
  | MethodType => Command_init spinalcase MethodCommand decorated None None COMMANDS
  | FunctionType => Command_init spinalcase FunctionCommand decorated None None COMMANDS
  | ClassType => Command_init spinalcase ClassCommand decorated None None COMMANDS
  | OtherType =>
      raise TypeError "command can only decorate functions, methods or classes"
  end.

(** [Controller.command(decorated)], the form with the decorated object. *)
Definition command (spinalcase : string -> string) (decorated : Decorated)
    (COMMANDS : gmap string CommandObject)
    : outcome (CommandObject * gmap string CommandObject) :=
  CommandDecorator_call spinalcase (CommandDecorator_init None None) decorated COMMANDS.

(** ** Further samples *)

(** A component interaction (a button click). *)
Definition button_interaction : Interaction :=
  mkInteraction MESSAGE_COMPONENT 2 "token" 7 "button" 0 None
    "ComponentInteraction(id=2)".

(** An action cancelled while it runs: the exception does not derive from
    [Exception]. *)
Definition cancelled_command : Command :=
  fun _ => lift (Raise (mkExn BaseException [VStr "CancelledError"])).

(** A class with a [name] attribute, as the decorator needs it. *)
Definition named_class : Decorated := mkDecorated ClassType (Some "ShowStats"%string).

(** A short document, and a document of nineteen fields. *)
Definition doc_short : Embed :=
  mkEmbed (Some "X"%string) (Some "hello world"%string) (numbered_fields 3).
Definition doc_nineteen_fields : Embed :=
  mkEmbed (Some "X"%string) None (numbered_fields 19).

(** Forty fields and no body. *)
Definition doc_titled_40 : Embed :=
  mkEmbed (Some "X"%string) None (numbered_fields 40).

(** * Properties *)

(** ** Strings *)

Module StrFacts.
Import Str.

Lemma app_cons a r t : String a r +:+ t = String a (r +:+ t).
Proof. reflexivity. Qed.

Lemma app_nil_l t : ""%string +:+ t = t.
Proof. reflexivity. Qed.

Lemma app_nil_r s : s +:+ "" = s.
Proof. induction s as [|a r IH]; [done|]. by rewrite app_cons, IH. Qed.

Lemma len_app s t : len (s +:+ t) = (len s + len t)%nat.
Proof. induction s as [|a r IH]; [done|]. rewrite app_cons. simpl. by rewrite IH. Qed.

Lemma take_drop n s : take n s +:+ drop n s = s.
Proof.
  revert s. induction n as [|n IH]; intros [|a r]; try done.
  simpl. by rewrite app_cons, IH.
Qed.

Lemma len_take n s : len (take n s) = Nat.min n (len s).
Proof.
  revert s. induction n as [|n IH]; intros [|a r]; try done.
  simpl. by rewrite IH.
Qed.

Lemma len_drop n s : len (drop n s) = (len s - n)%nat.
Proof.
  revert s. induction n as [|n IH]; intros [|a r]; try done.
  simpl. by rewrite IH.
Qed.

Lemma truthy_len s : truthy s = false <-> s = ""%string.
Proof. by destruct s. Qed.

Lemma len_0 s : len s = 0%nat -> s = ""%string.
Proof. by destruct s. Qed.

Lemma bound_nonneg n i : 0 <= i -> bound n i = Nat.min (Z.to_nat i) n.
Proof. intros Hi. unfold bound. destruct (Z.ltb_spec i 0); lia. Qed.

(** What [rfind_go] returns: the fallback, or the index of an occurrence
    of [c] among the first [n] characters. *)
Lemma rfind_go_spec c s i n found :
  rfind_go c s i n found = found \/
  exists k, (k < n)%nat /\ rfind_go c s i n found = i + Z.of_nat k /\
    s = take k s +:+ String c (drop (S k) s).
Proof.
  revert s i found. induction n as [|n IH]; intros [|a r] i found; simpl; auto.
  destruct (IH r (i + 1) (if Ascii.eqb a c then i else found)) as [E|(k & Hk & E & Hs)].
  - rewrite E. destruct (Ascii.eqb_spec a c) as [->|]; auto.
    right. exists 0%nat. split; [lia|]. split; [lia|done].
  - right. exists (S k). split; [lia|]. split; [lia|].
    change (String a r = String a (take k r +:+ String c (drop (S k) r))).
    by f_equal.
Qed.

Lemma rfind_spec c s stop :
  0 <= stop ->
  rfind c s stop = -1 \/
  exists k, Z.of_nat k < stop /\ rfind c s stop = Z.of_nat k /\
    s = take k s +:+ String c (drop (S k) s).
Proof.
  intros Hs. unfold rfind.
  destruct (rfind_go_spec c s 0 (bound (len s) stop) (-1)) as [E|(k & Hk & E & Hd)]; auto.
  right. exists k. rewrite bound_nonneg in Hk by done. split; [lia|]. split; [lia|done].
Qed.

Lemma occurrence_len c s k :
  s = take k s +:+ String c (drop (S k) s) -> (k < len s)%nat.
Proof.
  intros E. apply (f_equal len) in E. rewrite len_app, len_take in E. simpl in E. lia.
Qed.
End StrFacts.

(** ** split_text *)

Section split_text_facts.
Import Str StrFacts.
Variable limit : Z.
Hypothesis limit_pos : 0 < limit.

Lemma split_at_occurrence c s k :
  Z.of_nat k < limit ->
  s = take k s +:+ String c (drop (S k) s) ->
  slice_to s (Z.of_nat k) = take k s /\
  slice_from s (Z.of_nat k + 1) = drop (S k) s.
Proof.
  intros Hk Hs. pose proof (occurrence_len _ _ _ Hs).
  unfold slice_to, slice_from. rewrite !bound_nonneg by lia.
  split; f_equal; lia.
Qed.

Lemma split_text_spec s :
  exists sep, separator sep = true /\
    s = (split_text s limit).1 +:+ sep +:+ (split_text s limit).2 /\
    Z.of_nat (len (split_text s limit).1 + len sep) <= limit /\
    (s <> ""%string -> (len (split_text s limit).2 < len s)%nat).
Proof.
  unfold split_text. destruct (Z.ltb_spec (Z.of_nat (len s)) limit) as [Hlt|Hge].
  { exists ""%string. simpl. rewrite app_nil_r. repeat split; [lia|].
    destruct s; [done|simpl; lia]. }
  destruct (rfind_spec newline s limit) as [E|(k & Hk & E & Hs)]; [lia| |].
  - rewrite E. simpl.
    destruct (rfind_spec space s limit) as [E'|(k & Hk & E' & Hs)]; [lia| |].
    + rewrite E'. simpl. exists ""%string.
      unfold slice_to, slice_from. rewrite bound_nonneg by lia.
      rewrite app_nil_l, take_drop, len_take.
      repeat split; [simpl; lia|]. intros _. rewrite len_drop. lia.
    + rewrite E'. destruct (Z.ltb_spec (Z.of_nat k) 0); [lia|].
      destruct (split_at_occurrence _ _ _ Hk Hs) as [-> ->]. cbn [fst snd].
      exists (of_char space). rewrite len_take.
      pose proof (occurrence_len _ _ _ Hs).
      repeat split; [done|simpl; lia|]. intros _. rewrite len_drop. lia.
  - rewrite E. destruct (Z.ltb_spec (Z.of_nat k) 0); [lia|].
    destruct (split_at_occurrence _ _ _ Hk Hs) as [-> ->]. cbn [fst snd].
    exists (of_char newline). rewrite len_take.
    pose proof (occurrence_len _ _ _ Hs).
    repeat split; [done|simpl; lia|]. intros _. rewrite len_drop. lia.
Qed.
End split_text_facts.

(** ** The inner loop *)

Lemma spill_spec efields description carry :
  spill (length efields) efields description carry =
  if Str.truthy description then ([], carry ++ reverse efields)
  else (take 15 efields, carry ++ reverse (drop 15 efields)).
Proof.
  remember (length efields) as n eqn:Hn.
  revert efields carry Hn. induction n as [|n IH]; intros efields carry Hn.
  { destruct efields; [|done]. simpl. rewrite app_nil_r. by destruct Str.truthy. }
  destruct efields as [|f l _] using rev_ind; [done|].
  rewrite length_app in Hn. simpl in Hn.
  cbn [spill]. rewrite last_snoc, removelast_last.
  destruct (Str.truthy description) eqn:Hd.
  - rewrite orb_true_r, IH by lia. rewrite ?Hd, reverse_snoc.
    by rewrite <- app_assoc.
  - rewrite orb_false_r. rewrite length_app. simpl.
    destruct (Z.ltb_spec 15 (Z.of_nat (length l + 1))) as [Hlt|Hle].
    + rewrite IH by lia. rewrite ?Hd.
      rewrite take_app_le, drop_app_le by lia.
      by rewrite reverse_snoc, <- app_assoc.
    + rewrite take_ge, drop_ge by (rewrite length_app; simpl; lia).
      by rewrite app_nil_r.
Qed.

Lemma foldl_add_field acc l : foldl add_field acc l = acc ++ l.
Proof.
  revert acc. induction l as [|[n v i] l IH]; intros acc; simpl.
  - by rewrite app_nil_r.
  - rewrite IH. unfold add_field. simpl. by rewrite <- app_assoc.
Qed.

(** ** One page *)

Lemma cut_body_spec description :
  exists sep,
    separator sep = true /\
    text description = text (cut_body description).1 +:+ sep +:+ (cut_body description).2 /\
    (Str.len (text (cut_body description).1) + Str.len sep <= 2048)%nat /\
    (Str.truthy (cut_body description).2 = true ->
     (Str.len (cut_body description).2 < Str.len (text description))%nat).
Proof.
  destruct description as [d|]; simpl.
  - destruct (Str.truthy d) eqn:Hd.
    + destruct (split_text_spec 2048 eq_refl d) as (sep & Hsep & Hjoin & Hlen & Hdec).
      assert (d <> ""%string) as Hne by (by destruct d).
      specialize (Hdec Hne).
      destruct (split_text d 2048) as [a b]. cbn [fst snd text] in *.
      exists sep. repeat split; [done|done|lia|done].
    + destruct d; [|done]. exists ""%string. repeat split; try done; simpl; lia.
  - exists ""%string. repeat split; try done; simpl; lia.
Qed.

Lemma fill_page_eq embed :
  fill_page embed =
  let c := cut_body (description embed) in
  if Str.truthy c.2
  then (mkEmbed (title embed) c.1 [], c.2, reverse (fields embed))
  else (mkEmbed (title embed) c.1 (take 15 (fields embed)), c.2,
        reverse (drop 15 (fields embed))).
Proof.
  unfold fill_page. destruct (cut_body (description embed)) as [b d].
  rewrite spill_spec. cbn [fst snd]. by destruct (Str.truthy d).
Qed.

(** What the first half of a turn does to the document: a page within the
    limits, whose body and fields, followed by the dropped separator and
    the carry-over, make up the body and the fields of the document. *)
Lemma fill_page_spec embed :
  exists sep,
    separator sep = true /\
    body embed = body (fill_page embed).1.1 +:+ sep +:+ (fill_page embed).1.2 /\
    (Str.len (body (fill_page embed).1.1) + Str.len sep <= 2048)%nat /\
    (length (fields (fill_page embed).1.1) <= 15)%nat /\
    fields embed = fields (fill_page embed).1.1 ++ reverse (fill_page embed).2 /\
    title (fill_page embed).1.1 = title embed /\
    (carry_over (fill_page embed).1.2 (fill_page embed).2 = true ->
     (Str.len (fill_page embed).1.2 + length (fill_page embed).2
      < Str.len (body embed) + length (fields embed))%nat).
Proof.
  rewrite fill_page_eq.
  assert (body embed = text (description embed)) as -> by done.
  destruct (cut_body_spec (description embed)) as (sep & Hsep & Hjoin & Hlen & Hdec).
  destruct (cut_body (description embed)) as [b d]. cbn [fst snd] in *.
  exists sep. destruct (Str.truthy d) eqn:Hd; cbn [fst snd body description fields title].
  - rewrite reverse_involutive, length_reverse.
    repeat split; [done|done|done|simpl; lia|]. intros _. specialize (Hdec eq_refl). lia.
  - rewrite reverse_involutive, length_take, length_reverse, length_drop, take_drop.
    repeat split; [done|done|done|lia|].
    unfold carry_over. rewrite Hd. simpl. intros Hc%bool_decide_eq_true.
    assert (length (drop 15 (fields embed)) <> 0%nat) as Hl.
    { intros Hz. apply Hc. apply length_zero_iff_nil in Hz. by rewrite Hz. }
    rewrite length_drop in Hl. destruct d; [|done]. simpl. lia.
Qed.

(** ** The outer loop *)

Lemma next_page_fuel base_title page description carried embed' :
  next_page base_title page description carried = Return (Some embed') ->
  carry_over description carried = true /\
  body embed' = description /\ fields embed' = carried /\
  paginate_fuel embed' = S (Str.len description + length carried).
Proof.
  unfold next_page. destruct (carry_over description carried); [|done].
  destruct base_title as [t|]; [|done]. simpl. intros [= <-].
  unfold paginate_fuel. simpl. by rewrite foldl_add_field.
Qed.

(** The loop ends within [paginate_fuel] turns. *)
Lemma paginate_loop_enough fuel base_title page embed embeds :
  (paginate_fuel embed <= fuel)%nat ->
  exists r, paginate_loop fuel base_title page embed embeds = Some r.
Proof.
  revert page embed embeds.
  induction fuel as [|fuel IH]; intros page embed embeds Hfuel.
  { unfold paginate_fuel in Hfuel. lia. }
  cbn [paginate_loop].
  destruct (fill_page_spec embed) as (_ & _ & _ & _ & _ & _ & _ & Hdec).
  destruct (fill_page embed) as [[emitted description] carried]. cbn [fst snd] in Hdec.
  destruct (next_page base_title (S page) description carried)
    as [[embed'|]|e] eqn:Hnext; eauto.
  apply next_page_fuel in Hnext as (Hc & _ & _ & Hf).
  apply IH. specialize (Hdec Hc). unfold paginate_fuel in Hfuel. lia.
Qed.

(** More turns than needed change nothing. *)
Lemma paginate_loop_mono fuel fuel' base_title page embed embeds r :
  paginate_loop fuel base_title page embed embeds = Some r ->
  (fuel <= fuel')%nat ->
  paginate_loop fuel' base_title page embed embeds = Some r.
Proof.
  revert fuel' page embed embeds.
  induction fuel as [|fuel IH]; intros fuel' page embed embeds; [done|].
  intros Hr Hle. destruct fuel' as [|fuel']; [lia|].
  cbn [paginate_loop] in *.
  destruct (fill_page embed) as [[emitted description] carried].
  destruct (next_page base_title (S page) description carried) as [[embed'|]|e]; try done.
  apply IH; [done|lia].
Qed.

(** The pages a finished loop has appended: within the limits, and
    accounting for the body and the fields of the document. *)
Lemma paginate_loop_pages fuel base_title page embed embeds l :
  paginate_loop fuel base_title page embed embeds = Some (Return l) ->
  exists pages seps,
    l = embeds ++ pages /\
    Forall within_limits pages /\
    length seps = length pages /\
    Forall (fun sep => separator sep = true) seps /\
    rejoin (body <$> pages) seps = body embed /\
    Permutation (concat_fields pages) (fields embed).
Proof.
  revert page embed embeds l.
  induction fuel as [|fuel IH]; intros page embed embeds l; [done|].
  cbn [paginate_loop].
  destruct (fill_page_spec embed)
    as (sep & Hsep & Hbody & Hlen & Hcount & Hfields & _ & _).
  destruct (fill_page embed) as [[emitted description] carried]. cbn [fst snd] in *.
  destruct (next_page base_title (S page) description carried)
    as [[embed'|]|e] eqn:Hnext; [| |done].
  - intros Hl. apply IH in Hl as (pages & seps & -> & Hok & Hn & Hseps & Hjoin & Hperm).
    apply next_page_fuel in Hnext as (_ & Hb & Hf & _).
    exists (emitted :: pages), (sep :: seps).
    split; [by rewrite <- app_assoc|].
    split; [constructor; [split; lia|done]|].
    split; [simpl; lia|].
    split; [by constructor|].
    split.
    + cbn [fmap list_fmap rejoin]. fold (fmap body pages). by rewrite Hjoin, Hb, Hbody.
    + unfold concat_fields in *. cbn [fmap list_fmap concat]. fold (fmap fields pages).
      rewrite Hfields, Hperm, Hf. apply Permutation_app_head.
      rewrite reverse_Permutation. reflexivity.
  - intros [= <-]. unfold next_page in Hnext.
    destruct (carry_over description carried) eqn:Hc.
    { by destruct (page_title base_title (S page)). }
    unfold carry_over in Hc. apply orb_false_elim in Hc as [Hd Hc].
    apply bool_decide_eq_false in Hc. apply dec_stable in Hc. subst carried.
    destruct description; [|done].
    exists [emitted], [sep].
    split; [done|]. split; [apply Forall_singleton; split; lia|]. split; [done|].
    split; [by apply Forall_singleton|]. split.
    + simpl. by rewrite Hbody.
    + unfold concat_fields. simpl. rewrite Hfields. simpl. by rewrite !app_nil_r.
Qed.

(** The loop raises nothing but the [TypeError] of the page title. *)
Lemma paginate_loop_raises fuel base_title page embed embeds e :
  paginate_loop fuel base_title page embed embeds = Some (Raise e) ->
  base_title = None /\
  e = mkExn TypeError [VStr "unsupported operand type(s) for +: 'NoneType' and 'str'"].
Proof.
  revert page embed embeds.
  induction fuel as [|fuel IH]; intros page embed embeds; [done|].
  cbn [paginate_loop].
  destruct (fill_page embed) as [[emitted d] carried].
  unfold next_page. destruct (carry_over d carried); [|done].
  destruct base_title as [t|]; cbn [page_title obind].
  - apply IH.
  - by intros [= <-].
Qed.

(** [paginate_embed] returns what its loop returns, when that is at most
    ten pages. *)
Lemma paginate_embed_Return embed pages :
  paginate_embed embed = Return pages <->
  paginate_loop (paginate_fuel embed) (title embed) 1 embed [] = Some (Return pages)
  /\ (length pages <= 10)%nat.
Proof.
  unfold paginate_embed.
  destruct (paginate_loop_enough (paginate_fuel embed) (title embed) 1 embed [])
    as [r ->]; [done|].
  destruct r as [l|e]; simpl.
  - unfold check_pages. destruct (Z.ltb_spec 10 (Z.of_nat (length l))).
    + split; [done|]. intros [[= ->] ?]. lia.
    + split; [intros [= ->]|intros [[= ->] ?]]; [split; [done|lia]|done].
  - split; [done|]. by intros [? _].
Qed.

(** The loop of [paginate_embed] ends within its bound, and with any larger
    one: the last branch of [paginate_embed] is never taken. *)
Lemma paginate_embed_fuel embed fuel :
  (paginate_fuel embed <= fuel)%nat ->
  exists r,
    paginate_loop fuel (title embed) 1 embed [] = Some r /\
    paginate_embed embed = obind r check_pages.
Proof.
  intros Hfuel. unfold paginate_embed.
  destruct (paginate_loop_enough (paginate_fuel embed) (title embed) 1 embed [])
    as [r Hr]; [done|].
  exists r. rewrite Hr. split; [|done]. by apply (paginate_loop_mono _ _ _ _ _ _ _ Hr).
Qed.

(** ** The pages of paginate_embed *)

(** The two ways [paginate_embed] fails: the [TypeError] of the title of
    an untitled document, the [ValueError] of the page count. *)
Lemma paginate_embed_raises embed e :
  paginate_embed embed = Raise e ->
  (title embed = None /\
   e = mkExn TypeError [VStr "unsupported operand type(s) for +: 'NoneType' and 'str'"])
  \/ e = mkExn ValueError [VStr "Embed too large to paginate"].
Proof.
  destruct (paginate_embed_fuel embed (paginate_fuel embed)) as (r & Hr & ->); [done|].
  destruct r as [l|e']; cbn [obind].
  - unfold check_pages. destruct (10 <? _); [|done]. intros [= <-]. by right.
  - intros [= <-]. left. by apply paginate_loop_raises in Hr.
Qed.

(** C2. Every page [paginate_embed] returns has a body of at most 2048
    characters and at most 15 fields, and it returns at most 10 pages. *)
Theorem paginate_embed_within_limits embed pages :
  paginate_embed embed = Return pages ->
  Forall within_limits pages /\ (length pages <= 10)%nat.
Proof.
  intros [Hloop Hten]%paginate_embed_Return. split; [|done].
  apply paginate_loop_pages in Hloop as (pages' & _ & -> & Hok & _). done.
Qed.

Lemma paginate_embed_within_limits_witness :
  exists pages, paginate_embed doc_twenty_fields = Return pages /\
    Forall within_limits pages /\ (length pages <= 10)%nat.
Proof.
  eexists. split; [vm_compute; reflexivity|].
  apply (paginate_embed_within_limits doc_twenty_fields). vm_compute. reflexivity.
Defined.

(** C1, as the code has it. The bodies of the pages give back the body of
    the document once the separator dropped at each cut (a newline, a
    space, or nothing) is put back after each page body; the field lists of
    the pages, taken together, hold the fields of the document, each as
    many times as the document does. *)
Theorem paginate_embed_rejoin embed pages :
  paginate_embed embed = Return pages ->
  (exists seps,
     length seps = length pages /\
     Forall (fun sep => separator sep = true) seps /\
     rejoin (body <$> pages) seps = body embed) /\
  Permutation (concat_fields pages) (fields embed).
Proof.
  intros [Hloop _]%paginate_embed_Return.
  apply paginate_loop_pages in Hloop
    as (pages' & seps & -> & _ & Hn & Hseps & Hjoin & Hperm).
  split; [|done]. by exists seps.
Qed.

Lemma paginate_embed_rejoin_witness :
  exists pages, paginate_embed doc_long_body = Return pages /\
    (exists seps,
       length seps = length pages /\
       Forall (fun sep => separator sep = true) seps /\
       rejoin (body <$> pages) seps = body doc_long_body) /\
    Permutation (concat_fields pages) (fields doc_long_body).
Proof.
  eexists. split; [vm_compute; reflexivity|].
  apply (paginate_embed_rejoin doc_long_body). vm_compute. reflexivity.
Defined.

(** C1 as stated fails on [doc_long_body]: the space at the cut is in no
    page body, and the second page holds the two fields in reverse
    order. *)
Lemma paginate_embed_roundtrip_counterexample :
  exists pages, paginate_embed doc_long_body = Return pages /\
    concat_bodies pages <> body doc_long_body /\
    concat_fields pages <> fields doc_long_body.
Proof.
  eexists. split; [vm_compute; reflexivity|]. split.
  - intros H. apply (f_equal String.length) in H. vm_compute in H. discriminate.
  - intros H. vm_compute in H. discriminate.
Qed.

(** The scenario of the specification: twenty fields and no body make two
    pages titled ["X"] and ["X (2)"], of 15 and 5 fields. *)
Example paginate_twenty_fields :
  (fun page => (title page, length (fields page))) <$>
    match paginate_embed doc_twenty_fields with Return l => l | Raise _ => [] end
  = [(Some "X"%string, 15%nat); (Some "X (2)"%string, 5%nat)].
Proof. vm_compute. reflexivity. Qed.

(** ** Documents without a title *)

Lemma second_page_needed_iff embed :
  second_page_needed embed = true <->
  Str.truthy (cut_body (description embed)).2 = true \/
  (15 < length (fields embed))%nat.
Proof.
  unfold second_page_needed. rewrite fill_page_eq. cbv zeta.
  destruct (Str.truthy (cut_body (description embed)).2) eqn:Hd.
  - unfold carry_over. rewrite Hd. simpl. tauto.
  - unfold carry_over. rewrite Hd. simpl. rewrite bool_decide_eq_true.
    split.
    + intros Hne. right.
      destruct (decide (15 < length (fields embed))%nat) as [|Hle]; [done|].
      destruct Hne. rewrite drop_ge by lia. done.
    + intros [|Hlt]; [done|]. intros Hnil. apply (f_equal length) in Hnil.
      rewrite length_reverse, length_drop in Hnil. simpl in Hnil. lia.
Qed.

(** A body of more than 2048 characters leaves a remainder. *)
Lemma long_body_carried description :
  (2048 < Str.len (text description))%nat ->
  Str.truthy (cut_body description).2 = true.
Proof.
  intros Hlong.
  destruct (cut_body_spec description) as (sep & _ & Hjoin & Hlen & _).
  apply (f_equal String.length) in Hjoin.
  rewrite !StrFacts.len_app in Hjoin.
  destruct (cut_body description) as [a b]. cbn [fst snd] in *.
  destruct b; [simpl in Hjoin; lia|done].
Qed.

(** The first turn of the loop, on a document that needs a second page and
    has no title. *)
Lemma paginate_loop_untitled fuel page embed embeds :
  second_page_needed embed = true ->
  paginate_loop (S fuel) None page embed embeds =
  Some (raise TypeError "unsupported operand type(s) for +: 'NoneType' and 'str'").
Proof.
  unfold second_page_needed. cbn [paginate_loop].
  destruct (fill_page embed) as [[emitted description] carried].
  intros Hc. unfold next_page. by rewrite Hc.
Qed.

(** C10. On a document whose title is [None], [paginate_embed] raises a
    [TypeError] as soon as the first page leaves a carry-over body or
    carry-over fields, which is the case when the body is longer than 2048
    characters or there are more than 15 fields; when it returns, it
    returns a single page. *)
Theorem paginate_embed_untitled embed :
  title embed = None ->
  (second_page_needed embed = true ->
   paginate_embed embed =
   raise TypeError "unsupported operand type(s) for +: 'NoneType' and 'str'") /\
  (forall pages, paginate_embed embed = Return pages -> length pages = 1%nat) /\
  ((2048 < Str.len (body embed))%nat \/ (15 < length (fields embed))%nat ->
   second_page_needed embed = true).
Proof.
  intros Htitle.
  assert (second_page_needed embed = true ->
          paginate_embed embed =
          raise TypeError "unsupported operand type(s) for +: 'NoneType' and 'str'")
    as Hraise.
  { intros Hneeded. unfold paginate_embed, paginate_fuel. rewrite Htitle.
    by rewrite paginate_loop_untitled. }
  split; [done|]. split.
  - intros pages Hpages.
    destruct (second_page_needed embed) eqn:Hneeded.
    { rewrite Hraise in Hpages; done. }
    apply paginate_embed_Return in Hpages as [Hloop _].
    unfold paginate_fuel, second_page_needed in *. cbn [paginate_loop] in Hloop.
    destruct (fill_page embed) as [[emitted description] carried].
    unfold next_page in Hloop. rewrite Hneeded in Hloop. by injection Hloop as <-.
  - intros [Hlong|Hmany]; apply second_page_needed_iff; [left|by right].
    by apply long_body_carried.
Qed.

Lemma paginate_embed_untitled_witness :
  title doc_untitled_151 = None /\
  second_page_needed doc_untitled_151 = true /\
  paginate_embed doc_untitled_151 =
  raise TypeError "unsupported operand type(s) for +: 'NoneType' and 'str'".
Proof.
  split; [reflexivity|]. split; [vm_compute; reflexivity|].
  apply (paginate_embed_untitled doc_untitled_151); [reflexivity|].
  vm_compute. reflexivity.
Defined.

(** ** The page count *)

(** The greedy pages do not depend on the title. *)
Lemma greedy_pages_title fuel t1 t2 d f :
  greedy_pages fuel (mkEmbed t1 d f) = greedy_pages fuel (mkEmbed t2 d f).
Proof.
  destruct fuel as [|fuel]; [done|]. cbn [greedy_pages].
  rewrite !fill_page_eq. cbn [description fields title]. cbv zeta.
  by destruct (Str.truthy (cut_body d).2).
Qed.

(** With a title the loop runs to its end, and appends the greedy pages. *)
Lemma paginate_loop_titled fuel t page embed embeds :
  (paginate_fuel embed <= fuel)%nat ->
  exists pages,
    paginate_loop fuel (Some t) page embed embeds = Some (Return (embeds ++ pages)) /\
    (fun p => (body p, fields p)) <$> pages = greedy_pages fuel embed.
Proof.
  revert page embed embeds.
  induction fuel as [|fuel IH]; intros page embed embeds Hfuel.
  { unfold paginate_fuel in Hfuel. lia. }
  cbn [paginate_loop greedy_pages].
  destruct (fill_page_spec embed) as (_ & _ & _ & _ & _ & _ & _ & Hdec).
  destruct (fill_page embed) as [[emitted d] carried]. cbn [fst snd] in Hdec.
  unfold next_page. destruct (carry_over d carried) eqn:Hc.
  - cbn [page_title obind].
    set (embed' := mkEmbed _ (Some d) (foldl add_field [] carried)).
    destruct (IH (S page) embed' (embeds ++ [emitted])) as (pages & -> & Hg).
    { specialize (Hdec eq_refl). unfold paginate_fuel in *. subst embed'.
      cbn [body text description fields]. rewrite foldl_add_field. simpl. lia. }
    exists (emitted :: pages). split; [by rewrite <- app_assoc|].
    cbn [fmap list_fmap]. f_equal. etrans; [exact Hg|]. apply greedy_pages_title.
  - exists [emitted]. done.
Qed.

(** For a document with a title, [paginate_embed] raises its [ValueError]
    exactly when the greedy algorithm makes more than ten pages, and
    returns the greedy pages otherwise. *)
Lemma paginate_embed_titled t embed :
  title embed = Some t ->
  (paginate_embed embed = raise ValueError "Embed too large to paginate"
   <-> (10 < greedy_page_count embed)%nat) /\
  (forall pages, paginate_embed embed = Return pages ->
     (fun p => (body p, fields p)) <$> pages
     = greedy_pages (paginate_fuel embed) embed).
Proof.
  intros Htitle. unfold paginate_embed, greedy_page_count. rewrite Htitle.
  destruct (paginate_loop_titled (paginate_fuel embed) t 1 embed [])
    as (pages & -> & <-); [done|].
  rewrite length_fmap. cbn [obind app]. unfold check_pages.
  destruct (Z.ltb_spec 10 (Z.of_nat (length pages))).
  - split; [split; [lia|done]|done].
  - split; [split; [done|lia]|]. by intros ? [= <-].
Qed.

(** C3 at [doc_untitled_151]. The greedy algorithm makes eleven pages of
    its 151 fields; [paginate_embed] raises a [TypeError] while it builds
    the title of the second page, where the same document with a title
    gets the [ValueError] of the page-count check. *)
Theorem paginate_embed_overflow_untitled :
  greedy_page_count doc_untitled_151 = 11%nat /\
  paginate_embed doc_untitled_151 =
    raise TypeError "unsupported operand type(s) for +: 'NoneType' and 'str'" /\
  paginate_embed doc_titled_151 = raise ValueError "Embed too large to paginate".
Proof. vm_compute. done. Qed.

(** ** Resolution of commands *)

(** The loop of [dispatch_command] walks the registered tree along the
    sub-command path of the interaction. *)
Lemma descend_walk interaction :
  forall o action,
    descend interaction o action =
    match walk action (sub_command_path o).1 with
    | Some leaf => Return (leaf, (sub_command_path o).2)
    | None => raise ValueError ("unexpected subcommand " +:+ i_repr interaction)
    end.
Proof.
  fix IH 1. intros [name type value options] action.
  cbn [descend sub_command_path].
  destruct options as [[|o' rest]|].
  - cbn [fst snd walk subscript]. destruct action as [c|children]; [done|].
    cbn [subscript]. by destruct (children !! name).
  - destruct (is_sub_command o') eqn:Hsub.
    + specialize (IH o'). destruct (sub_command_path o') as [subpath rest'].
      cbn [fst snd walk] in *. destruct action as [c|children]; [done|].
      cbn [subscript]. destruct (children !! name) as [child|]; [|done].
      apply IH.
    + cbn [fst snd walk]. destruct action as [c|children]; [done|].
      cbn [subscript]. by destruct (children !! name).
  - cbn [fst snd walk subscript]. destruct action as [c|children]; [done|].
    cbn [subscript]. by destruct (children !! name).
Qed.

(** Resolution fails with a [KeyError] or with the [ValueError] of the
    loop, and with nothing else. *)
Lemma resolve_command_raises registry interaction e :
  resolve_command registry interaction = Raise e ->
  (COMMAND_ID_TO_INTERACTION registry !! i_id interaction = None /\
   e = mkExn KeyError [VInt (i_id interaction)]) \/
  e = mkExn ValueError [VStr ("unexpected subcommand " +:+ i_repr interaction)].
Proof.
  unfold resolve_command, table_lookup.
  destruct (COMMAND_ID_TO_INTERACTION registry !! i_id interaction) as [action|];
    cbn [obind]; [|intros [= <-]; by left].
  destruct (i_options interaction) as [[|o rest]|]; try done.
  destruct (is_sub_command o); [|done].
  rewrite descend_walk. destruct (walk action _); [done|].
  intros [= <-]. by right.
Qed.

(** ** The dispatcher *)

Ltac unfold_M :=
  unfold mbind, mret, M_bind, M_ret, lift, get, set_ephemeral, rest_method,
    client_method, call_async, await in *.

(** The end of [execute] leaves the context alone and makes no call on
    the client: the coroutine of [send] is built and dropped. *)
Lemma respond_silent response self :
  (respond response self).1.2 = self /\ (respond response self).2 = [].
Proof.
  unfold respond. unfold_M. destruct (truthy response); [|done].
  destruct response as [| | |b|z|s|doc|l]; try done.
  by destruct (paginate_embed doc).
Qed.

(** [execute] leaves the context as the action left it and makes no call
    of its own on the client. *)
Lemma execute_silent action options self :
  (execute action options self).1.2 = (call action options self).1.2 /\
  (execute action options self).2 = (call action options self).2.
Proof.
  unfold execute, try_action. unfold_M.
  destruct (call action options self) as [[[response|e] self'] calls]; cbn [fst snd].
  - destruct (respond_silent response self') as [Hs Hc].
    destruct (respond response self') as [[r s] c]. cbn [fst snd] in *.
    subst. by rewrite app_nil_r.
  - destruct (is_NozomiError e).
    + destruct (respond_silent (match exn_args e with [] => VStr "Failed" | arg :: _ => arg end) self')
        as [Hs Hc].
      destruct (respond _ self') as [[r s] c]. cbn [fst snd] in *.
      subst. by rewrite app_nil_r.
    + destruct (is_Exception e); [|done].
      destruct (respond_silent (VStr "Internal server error") self') as [Hs Hc].
      destruct (respond _ self') as [[r s] c]. cbn [fst snd] in *.
      subst. by rewrite app_nil_r.
Qed.

(** Whatever the class of [self], [dispatch_command] raises before it
    reaches [execute]: resolution fails, or else the call [self.context()]
    lacks its argument. *)
Lemma dispatch_command_raises registry snakecase self bot_rest interaction :
  exists e, dispatch_command registry snakecase self bot_rest interaction = (Raise e, []).
Proof.
  unfold dispatch_command.
  destruct (resolve_command registry interaction) as [[action options]|e]; eauto.
Qed.

(** C4, as the code has it. Inside [execute], an exception of the action
    body that derives from [Exception] is caught and [execute] returns: a
    [NozomiError] whose first argument is not an embed, or any other
    class. An error of the resolution ([KeyError] for an identifier absent
    from the table, [ValueError] for a sub-command that matches no
    registered child) is raised to the caller of [dispatch_command]. *)
Theorem execute_catches_resolution_raises :
  (forall action options self e self' calls,
     call action options self = (Raise e, self', calls) ->
     is_Exception e = true ->
     (is_NozomiError e = true -> forall doc args, exn_args e <> VEmbed doc :: args) ->
     execute action options self = (Return (), self', calls)) /\
  (forall registry snakecase self bot_rest interaction e,
     resolve_command registry interaction = Raise e ->
     dispatch_command registry snakecase self bot_rest interaction = (Raise e, []) /\
     (exn_class e = KeyError \/ exn_class e = ValueError)).
Proof.
  split.
  - intros action options self e self' calls Hcall Hexc Hembed.
    unfold execute, try_action. unfold_M. rewrite Hcall.
    assert (forall response, (forall doc, response <> VEmbed doc) ->
              respond response self' = (Return (), self', [])) as Hrespond.
    { intros response Hne. unfold respond. unfold_M.
      destruct (truthy response); [|done].
      destruct response as [| | |b|z|s|doc|l]; try done. by destruct (Hne doc). }
    destruct (is_NozomiError e).
    + rewrite Hrespond; [by rewrite app_nil_r|].
      intros doc Hdoc. destruct (exn_args e) as [|arg args] eqn:Hargs; [done|].
      subst arg. by apply (Hembed eq_refl doc args).
    + rewrite Hexc. rewrite Hrespond; [by rewrite app_nil_r|done].
  - intros registry snakecase self bot_rest interaction e Hresolve.
    unfold dispatch_command. rewrite Hresolve. split; [done|].
    apply resolve_command_raises in Hresolve as [[_ ->]| ->]; auto.
Qed.

Lemma execute_catches_resolution_raises_witness :
  execute (Leaf crashing_command) ∅ fresh_session = (Return (), fresh_session, []) /\
  dispatch_command settings_registry (fun s => s) Controller sample_rest
    unknown_group_interaction
  = (raise ValueError "unexpected subcommand CommandInteraction(id=1)", []).
Proof.
  destruct execute_catches_resolution_raises as [Hexecute Hresolve]. split.
  - apply (Hexecute (Leaf crashing_command) ∅ fresh_session
             (mkExn Exception [VStr "database is down"])); [reflexivity..|].
    intros H. discriminate H.
  - apply (Hresolve settings_registry (fun s => s) Controller sample_rest
             unknown_group_interaction).
    vm_compute. reflexivity.
Defined.

(** C4 as stated fails on [unknown_group_interaction]: the [ValueError] of
    the resolution loop leaves [dispatch_interaction]. *)
Lemma dispatch_interaction_raises_counterexample :
  dispatch_interaction settings_registry (fun s => s) Controller sample_rest
    unknown_group_interaction
  = (raise ValueError "unexpected subcommand CommandInteraction(id=1)", []).
Proof. vm_compute. reflexivity. Qed.

(** C5 at [refusing_command], which raises [NozomiError("Not allowed")].
    [execute] returns without any REST call: it builds the coroutine of
    [context.send] and never awaits it. Run on its own, that [send] creates
    the initial response with the [flags] keyword only: its positional
    argument, the message, is not handed to the REST call. *)
Theorem execute_user_error_sends_nothing :
  execute (Leaf refusing_command) ∅ fresh_session = (Return (), fresh_session, []) /\
  send [VStr "Not allowed"] false false ∅ fresh_session =
    (Return (),
     mkContext settings_interaction (Some sample_rest) None (Some false),
     [create_interaction_response (ById 1) "token" (Member MESSAGE_CREATE)
        {[ "flags"%string := VUndefined ]}]).
Proof. split; vm_compute; reflexivity. Qed.

(** C9 at [settings_interaction]. The loop resolves the path
    [notifications], [enable] to the registered command and its nested
    options; [dispatch_command] then raises the [TypeError] of
    [self.context()], whatever the class of [self], and the command is not
    invoked. For a group that is not registered the loop raises its
    [ValueError]. *)
Theorem dispatch_command_settings :
  resolve_command settings_registry settings_interaction
    = Return (Leaf enable_command, Some enable_options) /\
  (forall snakecase self bot_rest,
     dispatch_command settings_registry snakecase self bot_rest settings_interaction
     = (raise TypeError "context() missing 1 required positional argument: 'interaction'",
        [])) /\
  resolve_command settings_registry unknown_group_interaction
    = raise ValueError "unexpected subcommand CommandInteraction(id=1)".
Proof.
  assert (resolve_command settings_registry settings_interaction
          = Return (Leaf enable_command, Some enable_options)) as Hresolve
    by (vm_compute; reflexivity).
  split; [done|]. split; [|vm_compute; reflexivity].
  intros snakecase self bot_rest. unfold dispatch_command. rewrite Hresolve.
  by destruct self.
Qed.

(** ** The response session *)

(** [send] by cases, once the [embed] keyword is settled. *)
Lemma send_cases args ephemeral follow_up kwargs self :
  send args ephemeral follow_up kwargs self =
  match settle_embed kwargs with
  | Raise e => (Raise e, self, [])
  | Return kwargs =>
      let fixed := bool_decide (c_ephemeral self = None)
                   || (follow_up && bool_decide (is_Some (c_message self))) in
      let self' := if fixed
                   then mkContext (c_interaction self) (c_rest self) (c_message self)
                                  (Some ephemeral)
                   else self in
      let kwargs := setdefault "flags" (if fixed then flag_of ephemeral else VUndefined)
                               kwargs in
      match c_message self, c_rest self with
      | _, None => (raise AttributeError "'NoneType' object has no attribute", self', [])
      | None, Some _ =>
          (Return (), self',
           [create_interaction_response (ById (i_id (c_interaction self)))
              (i_token (c_interaction self))
              (if is_component (c_interaction self) && negb follow_up
               then Tuple1 MESSAGE_UPDATE else Member MESSAGE_CREATE) kwargs])
      | Some _, Some _ =>
          if follow_up
          then (Return (), self',
                [execute_webhook (i_application_id (c_interaction self))
                   (i_token (c_interaction self)) args kwargs])
          else (raise TypeError
                  "unsupported operand type(s) for ** or pow(): 'tuple' and 'dict'",
                self', [])
      end
  end.
Proof.
  unfold send. unfold_M. destruct (settle_embed kwargs) as [kwargs'|e]; [|done].
  destruct self as [i r m eph]. cbn [c_interaction c_rest c_message c_ephemeral].
  destruct eph as [b|], m as [msg|], r as [client|], follow_up; done.
Qed.











(** The guard of [Executor.Context.send] does what C8 says: once the flag
    is set, passing [ephemeral] again raises, but for a follow-up after a
    message. *)
Lemma Executor_send_guard_fixed follow_up b b' executor :
  x_ephemeral executor = Some b ->
  Executor_send_guard follow_up (Some b') executor =
  if follow_up && bool_decide (is_Some (x_message executor))
  then Return (mkExecutor (Some b') (x_message executor))
  else raise ValueError "ephemeral has already been set, cannot reset".
Proof.
  intros Hset. unfold Executor_send_guard. rewrite Hset.
  by destruct follow_up, (x_message executor).
Qed.

(** C8 at [fresh_session]. After [defer(ephemeral=False)] the flag is
    [False]; a [send(ephemeral=True)] then returns without an error, keeps
    the flag and creates its response without the ephemeral flag; a
    [defer(ephemeral=True)] after a first [send(ephemeral=False)] returns
    and overwrites the flag. In the same situation the guard of
    [Executor.Context.send] raises its [ValueError]. *)
Theorem send_ignores_new_privacy :
  let deferred := (defer false false fresh_session).1.2 in
  let sent := (send [VStr "x"] false false ∅ fresh_session).1.2 in
  c_ephemeral deferred = Some false /\
  send [VStr "x"] true false ∅ deferred =
    (Return (), deferred,
     [create_interaction_response (ById 1) "token" (Member MESSAGE_CREATE)
        {[ "flags"%string := VUndefined ]}]) /\
  c_ephemeral sent = Some false /\
  (defer true false sent).1.1 = Return () /\
  c_ephemeral (defer true false sent).1.2 = Some true /\
  Executor_send_guard false (Some true) (mkExecutor (Some false) None)
    = raise ValueError "ephemeral has already been set, cannot reset".
Proof. vm_compute. repeat split; reflexivity. Qed.

(** * Further properties *)

(** ** split_text: where the cut falls *)

Lemma rfind_go_absent c s i n found :
  occurs c (Str.take n s) = false -> Str.rfind_go c s i n found = found.
Proof.
  revert s i found. induction n as [|n IH]; intros [|a r] i found; try done.
  cbn [Str.take occurs Str.rfind_go]. intros [Ha Hr]%orb_false_elim.
  rewrite IH by done. by rewrite Ha.
Qed.

Lemma rfind_go_last c s i n found :
  occurs c (Str.take n s) = true ->
  exists k, (k < n)%nat /\ Str.rfind_go c s i n found = i + Z.of_nat k /\
    s = Str.take k s +:+ String c (Str.drop (S k) s) /\
    occurs c (Str.drop (S k) (Str.take n s)) = false.
Proof.
  revert s i found. induction n as [|n IH]; intros [|a r] i found; try done.
  cbn [Str.take occurs Str.rfind_go]. intros Hocc.
  destruct (occurs c (Str.take n r)) eqn:Hr.
  - destruct (IH r (i + 1) (if Ascii.eqb a c then i else found) Hr)
      as (k & Hk & -> & Hs & Hafter).
    exists (S k). split; [lia|]. split; [lia|]. split; [|done].
    change (String a r = String a (Str.take k r +:+ String c (Str.drop (S k) r))).
    by f_equal.
  - rewrite orb_false_r in Hocc. rewrite rfind_go_absent by done. rewrite Hocc.
    apply Ascii.eqb_eq in Hocc as ->.
    exists 0%nat. split; [lia|]. split; [lia|]. split; done.
Qed.

Lemma take_take_le n m s : (n <= m)%nat -> Str.take n (Str.take m s) = Str.take n s.
Proof.
  revert m s. induction n as [|n IH]; intros [|m] [|a r] Hle; try done; [lia|].
  cbn [Str.take]. f_equal. apply IH. lia.
Qed.

(** X1. For a positive limit, [split_text] loses nothing but the one
    separator it cuts at: the text is the first part, a newline, a space or
    nothing, and the rest; the first part and the separator fit in the
    limit; the rest is shorter than a non-empty text; and a text shorter
    than the limit is returned whole. *)
Theorem split_text_loses_one_separator s limit :
  0 < limit ->
  (exists sep,
     separator sep = true /\
     s = (split_text s limit).1 +:+ sep +:+ (split_text s limit).2 /\
     Z.of_nat (Str.len (split_text s limit).1 + Str.len sep) <= limit) /\
  (s <> ""%string -> (Str.len (split_text s limit).2 < Str.len s)%nat) /\
  (Z.of_nat (Str.len s) < limit -> split_text s limit = (s, ""%string)).
Proof.
  intros Hpos.
  destruct (split_text_spec limit Hpos s) as (sep & Hsep & Hjoin & Hfit & Hless).
  split; [by exists sep|]. split; [done|].
  intros Hshort. unfold split_text.
  by destruct (Z.ltb_spec (Z.of_nat (Str.len s)) limit); [|lia].
Qed.

Lemma split_text_loses_one_separator_witness :
  0 < 8 /\ split_text "hello world foo" 8 = ("hello"%string, "world foo"%string).
Proof.
  split; [lia|].
  destruct (split_text_loses_one_separator "hello world foo" 8) as (_ & _ & _);
    [lia|]. vm_compute. reflexivity.
Defined.

(** X2. On a text of at least [limit] characters, [split_text] cuts at the
    last newline among the first [limit] characters; when there is none,
    at the last space among them; when there is neither, after exactly
    [limit] characters, dropping nothing. *)
Theorem split_text_cut_choice s limit :
  0 < limit -> limit <= Z.of_nat (Str.len s) ->
  let window := Str.take (Z.to_nat limit) s in
  let cut_at c :=
    exists k, (Z.of_nat k < limit) /\
      split_text s limit = (Str.take k s, Str.drop (S k) s) /\
      s = Str.take k s +:+ String c (Str.drop (S k) s) /\
      occurs c (Str.drop (S k) window) = false in
  (occurs Str.newline window = true -> cut_at Str.newline) /\
  (occurs Str.newline window = false -> occurs Str.space window = true ->
   cut_at Str.space) /\
  (occurs Str.newline window = false -> occurs Str.space window = false ->
   split_text s limit = (window, Str.drop (Z.to_nat limit) s)).
Proof.
  intros Hpos Hlen window cut_at.
  assert (Str.bound (Str.len s) limit = Z.to_nat limit) as Hbound.
  { rewrite StrFacts.bound_nonneg by lia. lia. }
  assert (forall c, occurs c window = true ->
            exists k, Z.of_nat k < limit /\ Str.rfind c s limit = Z.of_nat k /\
              s = Str.take k s +:+ String c (Str.drop (S k) s) /\
              occurs c (Str.drop (S k) window) = false) as Hfound.
  { intros c Hocc. unfold Str.rfind. rewrite Hbound.
    destruct (rfind_go_last c s 0 (Z.to_nat limit) (-1) Hocc)
      as (k & Hk & -> & Hs & Hafter).
    exists k. split; [lia|]. split; [lia|]. done. }
  assert (forall c, occurs c window = false -> Str.rfind c s limit = -1) as Habsent.
  { intros c Hocc. unfold Str.rfind. rewrite Hbound. by apply rfind_go_absent. }
  assert (forall c k, Z.of_nat k < limit ->
            s = Str.take k s +:+ String c (Str.drop (S k) s) ->
            (Str.slice_to s (Z.of_nat k), Str.slice_from s (Z.of_nat k + 1))
            = (Str.take k s, Str.drop (S k) s)) as Hslice.
  { intros c k Hk Hs. by destruct (split_at_occurrence limit c s k Hk Hs) as [-> ->]. }
  split; [|split].
  - intros Hnl. destruct (Hfound _ Hnl) as (k & Hk & Hr & Hs & Hafter).
    exists k. split; [done|]. split; [|done].
    unfold split_text. destruct (Z.ltb_spec (Z.of_nat (Str.len s)) limit); [lia|].
    rewrite Hr. destruct (Z.ltb_spec (Z.of_nat k) 0); [lia|].
    by apply (Hslice Str.newline).
  - intros Hnl Hsp. destruct (Hfound _ Hsp) as (k & Hk & Hr & Hs & Hafter).
    exists k. split; [done|]. split; [|done].
    unfold split_text. destruct (Z.ltb_spec (Z.of_nat (Str.len s)) limit); [lia|].
    rewrite (Habsent _ Hnl). cbn [Z.ltb Z.compare].
    rewrite Hr. destruct (Z.ltb_spec (Z.of_nat k) 0); [lia|].
    by apply (Hslice Str.space).
  - intros Hnl Hsp.
    unfold split_text. destruct (Z.ltb_spec (Z.of_nat (Str.len s)) limit); [lia|].
    rewrite (Habsent _ Hnl), (Habsent _ Hsp). cbn [Z.ltb Z.compare].
    unfold Str.slice_to, Str.slice_from. by rewrite Hbound.
Qed.

Lemma split_text_cut_choice_witness :
  0 < 5 /\ 5 <= Z.of_nat (Str.len "abcdefgh") /\
  split_text "abcdefgh" 5 = ("abcde"%string, "fgh"%string).
Proof.
  split; [lia|]. split; [simpl; lia|].
  destruct (split_text_cut_choice "abcdefgh" 5) as (_ & _ & Hhard); [lia|simpl; lia|].
  rewrite Hhard; reflexivity.
Defined.

(** ** paginate_embed: the pages *)

Lemma embed_eta embed :
  mkEmbed (title embed) (description embed) (fields embed) = embed.
Proof. by destruct embed. Qed.

(** A body under the limit is not cut. *)
Lemma cut_body_short description :
  (Str.len (text description) < 2048)%nat ->
  cut_body description = (description, ""%string).
Proof.
  intros Hshort. destruct description as [d|]; [|done]. cbn [cut_body text] in *.
  destruct (Str.truthy d); [|done]. unfold split_text.
  by destruct (Z.ltb_spec (Z.of_nat (Str.len d)) 2048); [|lia].
Qed.

(** X3. A document whose body is shorter than 2048 characters and which
    has at most 15 fields comes back as the single page it is, with or
    without a title. *)
Theorem paginate_embed_small embed :
  (Str.len (body embed) < 2048)%nat -> (length (fields embed) <= 15)%nat ->
  paginate_embed embed = Return [embed].
Proof.
  intros Hbody Hfields. unfold paginate_embed, paginate_fuel. cbn [paginate_loop].
  rewrite fill_page_eq, cut_body_short by done. cbn [fst snd Str.truthy].
  rewrite take_ge, drop_ge by lia. rewrite embed_eta.
  cbn [next_page carry_over Str.truthy reverse rev_append orb bool_decide].
  reflexivity.
Qed.

Lemma paginate_embed_small_witness :
  (Str.len (body doc_short) < 2048)%nat /\ (length (fields doc_short) <= 15)%nat /\
  paginate_embed doc_short = Return [doc_short].
Proof.
  split; [vm_compute; lia|]. split; [vm_compute; lia|].
  apply paginate_embed_small; vm_compute; lia.
Defined.

(** The first page a finished loop appends is the filled page of its
    document. *)
Lemma paginate_loop_first fuel base_title page embed embeds l :
  paginate_loop fuel base_title page embed embeds = Some (Return l) ->
  exists rest, l = embeds ++ (fill_page embed).1.1 :: rest.
Proof.
  destruct fuel as [|fuel]; [done|]. cbn [paginate_loop].
  destruct (fill_page embed) as [[emitted d] carried]. cbn [fst].
  destruct (next_page base_title (S page) d carried) as [[embed'|]|e]; [| |done].
  - intros (pages & _ & -> & _)%paginate_loop_pages.
    exists pages. by rewrite <- app_assoc.
  - intros [= <-]. by exists [].
Qed.

(** X4. The first page of a paginated document keeps its title, has the
    first part of the cut as body, and holds the first fifteen fields in
    their order, or no field at all when a part of the body is carried
    over to the next page. *)
Theorem paginate_embed_first_page embed pages :
  paginate_embed embed = Return pages ->
  exists first rest,
    pages = first :: rest /\
    title first = title embed /\
    description first = (cut_body (description embed)).1 /\
    fields first =
      if Str.truthy (cut_body (description embed)).2 then []
      else take 15 (fields embed).
Proof.
  intros [Hloop _]%paginate_embed_Return.
  apply paginate_loop_first in Hloop as [rest ->].
  exists (fill_page embed).1.1, rest. split; [done|].
  rewrite fill_page_eq. cbv zeta.
  by destruct (Str.truthy (cut_body (description embed)).2).
Qed.

Lemma paginate_embed_first_page_witness :
  exists pages, paginate_embed doc_long_body = Return pages /\
    (fields <$> head pages) = Some [] /\
    (description <$> head pages) = Some (Some (Str.replicate 2047 "a")).
Proof.
  eexists. split; [vm_compute; reflexivity|].
  destruct (paginate_embed_first_page doc_long_body
              (match paginate_embed doc_long_body with Return l => l | Raise _ => [] end))
    as (first & rest & Hpages & _ & Hd & Hf); [vm_compute; reflexivity|].
  vm_compute in Hpages. injection Hpages as <- <-. split; reflexivity.
Defined.

(** The titles a finished loop gives to the pages it appends. *)
Lemma paginate_loop_titles fuel t page embed embeds l :
  paginate_loop fuel (Some t) page embed embeds = Some (Return l) ->
  exists pages,
    l = embeds ++ pages /\
    forall k p, pages !! k = Some p ->
      title p = match k with
                | O => title embed
                | S _ => Some (t +:+ " (" +:+ pretty (page + k)%nat +:+ ")")
                end.
Proof.
  revert page embed embeds l.
  induction fuel as [|fuel IH]; intros page embed embeds l; [done|].
  cbn [paginate_loop].
  destruct (fill_page_spec embed) as (_ & _ & _ & _ & _ & _ & Htitle & _).
  destruct (fill_page embed) as [[emitted d] carried]. cbn [fst snd] in *.
  unfold next_page. destruct (carry_over d carried).
  - cbn [page_title obind]. intros (pages & -> & Htitles)%IH.
    exists (emitted :: pages). split; [by rewrite <- app_assoc|].
    intros [|k] p Hp; [by injection Hp as <-|].
    cbn [lookup list_lookup] in Hp. specialize (Htitles k p Hp).
    rewrite Htitles. replace (page + S k)%nat with (S page + k)%nat by lia.
    destruct k as [|k]; [|done]. cbn [title]. by rewrite Nat.add_0_r.
  - intros [= <-]. exists [emitted]. split; [done|].
    intros [|k] p Hp; [by injection Hp as <-|done].
Qed.

(** X5. The pages of a titled document are numbered from the second one
    on: the first keeps the title, and the page of index [k] (the second
    page has index 1) is titled with the title followed by [" (k+1)"]. *)
Theorem paginate_embed_titles t embed pages :
  title embed = Some t -> paginate_embed embed = Return pages ->
  forall k p, pages !! k = Some p ->
    title p = Some (match k with
                    | O => t
                    | S _ => t +:+ " (" +:+ pretty (S k) +:+ ")"
                    end).
Proof.
  intros Htitle [Hloop _]%paginate_embed_Return k p Hp. rewrite Htitle in Hloop.
  apply paginate_loop_titles in Hloop as (pages' & Hl & Htitles).
  cbn [app] in Hl. subst pages'. rewrite (Htitles k p Hp).
  by destruct k.
Qed.

Lemma paginate_embed_titles_witness :
  (title <$> match paginate_embed doc_titled_40 with Return l => l | Raise _ => [] end)
  !! 2%nat = Some (Some "X (3)"%string).
Proof.
  destruct (paginate_embed doc_titled_40) as [pages|] eqn:Hpages;
    [|vm_compute in Hpages; discriminate].
  destruct (pages !! 2%nat) as [p|] eqn:Hp.
  - rewrite list_lookup_fmap, Hp. cbn [fmap option_fmap option_map].
    rewrite (paginate_embed_titles "X" doc_titled_40 pages eq_refl Hpages 2 p Hp).
    reflexivity.
  - exfalso. vm_compute in Hpages. injection Hpages as <-. discriminate.
Defined.

(** ** paginate_embed: failures and page counts *)

(** Without a carry-over the loop ends after one turn. *)
Lemma paginate_embed_single embed :
  second_page_needed embed = false ->
  paginate_embed embed = Return [(fill_page embed).1.1].
Proof.
  unfold second_page_needed, paginate_embed, paginate_fuel. cbn [paginate_loop].
  destruct (fill_page embed) as [[emitted d] carried]. intros Hc.
  unfold next_page. by rewrite Hc.
Qed.

(** X6. [paginate_embed] fails in two ways and no other: with the
    [TypeError] of [None + str], exactly on the untitled documents that
    need a second page; with the [ValueError] of the page count, exactly
    on the titled documents the greedy algorithm cuts into more than ten
    pages. *)
Theorem paginate_embed_failures embed e :
  paginate_embed embed = Raise e <->
  (title embed = None /\ second_page_needed embed = true /\
   e = mkExn TypeError [VStr "unsupported operand type(s) for +: 'NoneType' and 'str'"])
  \/
  (title embed <> None /\ (10 < greedy_page_count embed)%nat /\
   e = mkExn ValueError [VStr "Embed too large to paginate"]).
Proof.
  destruct (title embed) as [t|] eqn:Htitle.
  - destruct (paginate_embed_titled t embed Htitle) as [Hlarge _]. split.
    + intros Hraise.
      destruct (paginate_embed_raises _ _ Hraise) as [[Hnone _]| ->]; [congruence|].
      right. split; [done|]. split; [by apply Hlarge|done].
    + intros [(? & _)|(_ & Hcount & ->)]; [done|]. by apply Hlarge.
  - destruct (second_page_needed embed) eqn:Hneeded.
    + assert (paginate_embed embed =
              raise TypeError "unsupported operand type(s) for +: 'NoneType' and 'str'")
        as Hraise.
      { unfold paginate_embed, paginate_fuel. rewrite Htitle.
        by rewrite paginate_loop_untitled. }
      rewrite Hraise. split.
      * intros [= <-]. by left.
      * intros [(_ & _ & ->)|(? & _)]; done.
    + rewrite paginate_embed_single by done. split; [done|].
      intros [(_ & ? & _)|(? & _)]; done.
Qed.

Lemma paginate_embed_failures_witness :
  paginate_embed doc_titled_151 = raise ValueError "Embed too large to paginate".
Proof.
  apply (paginate_embed_failures doc_titled_151). right.
  split; [discriminate|]. split; [vm_compute; lia|reflexivity].
Defined.

(** The greedy page count of a document without body text. *)
Lemma greedy_fields_only fuel t d flds :
  Str.truthy (text d) = false -> (length flds < fuel)%nat ->
  length (greedy_pages fuel (mkEmbed t d flds))
  = Nat.max 1 ((length flds + 14) / 15).
Proof.
  revert t d flds. induction fuel as [|fuel IH]; intros t d flds Hd Hfuel; [lia|].
  cbn [greedy_pages]. rewrite fill_page_eq. cbn [description fields title].
  assert ((cut_body d).2 = ""%string /\ text (cut_body d).1 = ""%string) as [Hc Hb].
  { destruct d as [[|a r]|]; done. }
  cbv zeta. rewrite Hc. cbn [Str.truthy fst snd].
  unfold carry_over. cbn [Str.truthy orb].
  destruct (decide (length flds <= 15)%nat) as [Hle|Hgt].
  - rewrite drop_ge by lia.
    rewrite bool_decide_eq_false_2 by (intros Hne; by apply Hne).
    cbn [length].
    assert ((length flds + 14) / 15 < 2)%nat by (apply Nat.Div0.div_lt_upper_bound; lia).
    lia.
  - rewrite bool_decide_eq_true_2.
    2:{ intros Hnil. apply (f_equal length) in Hnil.
        rewrite length_reverse, length_drop in Hnil. simpl in Hnil. lia. }
    cbn [length]. rewrite IH; [|done|].
    2:{ rewrite foldl_add_field, length_app, length_reverse, length_drop. simpl. lia. }
    rewrite foldl_add_field, length_app, length_reverse, length_drop. cbn [length].
    replace (length flds + 14)%nat with ((0 + (length flds - 15) + 14) + 1 * 15)%nat by lia.
    rewrite Nat.div_add by lia.
    assert (1 <= (0 + (length flds - 15) + 14) / 15)%nat
      by (apply Nat.div_le_lower_bound; lia).
    lia.
Qed.

(** X7. A titled document without body text is cut into one page per
    fifteen fields (one page when it has no field): [paginate_embed]
    returns that many pages up to 150 fields, and raises its [ValueError]
    beyond. *)
Theorem paginate_embed_fields_only t embed :
  title embed = Some t -> Str.truthy (body embed) = false ->
  ((length (fields embed) <= 150)%nat ->
   exists pages, paginate_embed embed = Return pages /\
     length pages = Nat.max 1 ((length (fields embed) + 14) / 15)) /\
  ((150 < length (fields embed))%nat ->
   paginate_embed embed = raise ValueError "Embed too large to paginate").
Proof.
  intros Htitle Hbody.
  assert (greedy_page_count embed = Nat.max 1 ((length (fields embed) + 14) / 15))
    as Hcount.
  { unfold greedy_page_count, paginate_fuel. unfold body in *.
    destruct embed as [t' d flds]. cbn [title description fields] in *.
    apply greedy_fields_only; [done|]. lia. }
  destruct (paginate_embed_titled t embed Htitle) as [Hlarge Hpages].
  split.
  - intros Hle.
    assert ((length (fields embed) + 14) / 15 < 11)%nat
      by (apply Nat.Div0.div_lt_upper_bound; lia).
    destruct (paginate_embed embed) as [pages|e] eqn:Hresult.
    + exists pages. split; [done|].
      specialize (Hpages pages eq_refl). apply (f_equal length) in Hpages.
      rewrite length_fmap in Hpages. fold (greedy_page_count embed) in Hpages. lia.
    + apply paginate_embed_raises in Hresult as [[Hnone _]| ->]; [congruence|].
      assert (10 < greedy_page_count embed)%nat by (by apply Hlarge).
      lia.
  - intros Hgt. apply Hlarge. rewrite Hcount.
    assert (11 <= (length (fields embed) + 14) / 15)%nat
      by (apply Nat.div_le_lower_bound; lia).
    lia.
Qed.

Lemma paginate_embed_fields_only_witness :
  exists pages, paginate_embed doc_titled_40 = Return pages /\ length pages = 3%nat.
Proof.
  destruct (paginate_embed_fields_only "X" doc_titled_40) as [Hfits _];
    [reflexivity|reflexivity|].
  destruct Hfits as (pages & Hpages & Hlen); [vm_compute; lia|].
  exists pages. split; [done|]. rewrite Hlen. reflexivity.
Defined.

(** X8. A titled document without body text and with sixteen to thirty
    fields makes two pages: the first fifteen fields in their order, then
    the remaining ones in reverse order under the title numbered 2. *)
Theorem paginate_embed_second_page_reversed t embed :
  title embed = Some t -> Str.truthy (body embed) = false ->
  (15 < length (fields embed) <= 30)%nat ->
  paginate_embed embed =
  Return [mkEmbed (Some t) (description embed) (take 15 (fields embed));
          mkEmbed (Some (t +:+ " (2)")) (Some ""%string)
                  (reverse (drop 15 (fields embed)))].
Proof.
  intros Htitle Hbody [Hgt Hle].
  assert ((cut_body (description embed)).2 = ""%string /\
          (cut_body (description embed)).1 = description embed) as [Hc Hb].
  { unfold body in Hbody. destruct (description embed) as [[|a r]|]; done. }
  unfold paginate_embed, paginate_fuel.
  destruct (Str.len (body embed) + length (fields embed))%nat as [|fuel] eqn:Hfuel; [lia|].
  cbn [paginate_loop]. rewrite fill_page_eq. cbv zeta. rewrite Hc, Hb, Htitle.
  cbn [Str.truthy]. unfold next_page at 1, carry_over. cbn [Str.truthy orb].
  rewrite bool_decide_eq_true_2.
  2:{ intros Hnil. apply (f_equal length) in Hnil.
      rewrite length_reverse, length_drop in Hnil. simpl in Hnil. lia. }
  cbn [page_title obind]. rewrite foldl_add_field. cbn [app].
  rewrite fill_page_eq. cbn [description fields title cut_body Str.truthy fst snd].
  cbv zeta. cbn [Str.truthy].
  assert (length (reverse (drop 15 (fields embed))) <= 15)%nat as Hrest
    by (rewrite length_reverse, length_drop; lia).
  rewrite (take_ge (reverse _)), (drop_ge (reverse _)) by done.
  unfold next_page, carry_over. cbn. reflexivity.
Qed.

Lemma paginate_embed_second_page_reversed_witness :
  (fun page => name <$> fields page) <$>
    match paginate_embed doc_nineteen_fields with Return l => l | Raise _ => [] end
  = [pretty <$> seq 0 15; ["18"; "17"; "16"; "15"]%string].
Proof.
  rewrite (paginate_embed_second_page_reversed "X" doc_nineteen_fields);
    [vm_compute; reflexivity|reflexivity|reflexivity|vm_compute; lia].
Defined.

(** ** The response session: what send and defer do to it *)

(** [defer] by cases. *)
Lemma defer_cases ephemeral follow_up self :
  defer ephemeral follow_up self =
  match c_message self, c_rest self with
  | Some _, _ => (Return (), self, [])
  | None, None =>
      (raise AttributeError "'NoneType' object has no attribute",
       with_ephemeral self ephemeral, [])
  | None, Some _ =>
      (Return (), with_ephemeral self ephemeral,
       [create_interaction_response (ByObject (c_interaction self))
          (i_token (c_interaction self))
          (Member (if is_component (c_interaction self) && negb follow_up
                   then DEFERRED_MESSAGE_UPDATE else DEFERRED_MESSAGE_CREATE))
          {[ "flags"%string := flag_of ephemeral ]}])
  end.
Proof.
  unfold defer. unfold_M. destruct self as [i r m eph].
  cbn [c_interaction c_rest c_message c_ephemeral].
  by destruct m as [msg|], r as [client|].
Qed.

(** What settling the [embed] keyword leaves of the keyword arguments. *)
Lemma settle_embed_lookup kwargs settled :
  settle_embed kwargs = Return settled ->
  settled !! "embed"%string = None /\
  (forall key, key <> "embed"%string -> key <> "embeds"%string ->
     settled !! key = kwargs !! key) /\
  (kwargs !! "embed"%string = None -> settled = kwargs).
Proof.
  unfold settle_embed. destruct (kwargs !! "embed"%string) as [v|] eqn:Hembed.
  - destruct (paginate_value v) as [embeds|e]; [|done]. cbn [obind].
    intros [= <-]. unfold setdefault.
    destruct (delete "embed"%string kwargs !! "embeds"%string) eqn:Hembeds.
    + split; [apply lookup_delete_eq|]. split; [|done].
      intros key Hne _. by rewrite lookup_delete_ne.
    + split; [by rewrite lookup_insert_ne, lookup_delete_eq|]. split; [|done].
      intros key Hne Hne'. by rewrite lookup_insert_ne, lookup_delete_ne.
  - intros [= <-]. split; [done|]. split; done.
Qed.

(** X9. [send] and [defer] change nothing of the session but its privacy
    flag: the interaction, the REST client and the recorded message stay,
    so neither of them records a message, and each makes one call on the
    REST client at most. *)
Theorem send_defer_frame self args ephemeral follow_up kwargs :
  let after_send := (send args ephemeral follow_up kwargs self).1.2 in
  let after_defer := (defer ephemeral follow_up self).1.2 in
  (c_interaction after_send = c_interaction self /\
   c_rest after_send = c_rest self /\
   c_message after_send = c_message self /\
   (length (send args ephemeral follow_up kwargs self).2 <= 1)%nat) /\
  (c_interaction after_defer = c_interaction self /\
   c_rest after_defer = c_rest self /\
   c_message after_defer = c_message self /\
   (length (defer ephemeral follow_up self).2 <= 1)%nat).
Proof.
  cbv zeta. rewrite send_cases, defer_cases. split.
  - destruct (settle_embed kwargs) as [settled|e]; [|cbn; auto with lia].
    cbv zeta. destruct self as [i r m eph].
    cbn [c_interaction c_rest c_message c_ephemeral].
    destruct (_ || _), m as [msg|], r as [client|], follow_up; cbn; auto with lia.
  - destruct self as [i r m eph]. cbn [c_interaction c_rest c_message c_ephemeral].
    destruct m as [msg|], r as [client|]; cbn; auto with lia.
Qed.

(** X10. The privacy flag is fixed by the first [send] that gets past the
    [embed] keyword, and a set flag survives every later [send] that is
    not a follow-up to a recorded message, whatever [ephemeral] it is
    given. *)
Theorem send_fixes_privacy self args ephemeral follow_up kwargs :
  (c_ephemeral self = None ->
   forall settled, settle_embed kwargs = Return settled ->
     c_ephemeral (send args ephemeral follow_up kwargs self).1.2 = Some ephemeral) /\
  (forall b, c_ephemeral self = Some b ->
     follow_up = false \/ c_message self = None ->
     c_ephemeral (send args ephemeral follow_up kwargs self).1.2 = Some b).
Proof.
  rewrite send_cases. split.
  - intros Hunset settled ->. cbv zeta. rewrite Hunset.
    rewrite bool_decide_eq_true_2 by done. cbn [orb].
    destruct (c_message self), (c_rest self), follow_up; done.
  - intros b Hset Hlater. destruct (settle_embed kwargs) as [settled|e]; [|done].
    cbv zeta. rewrite Hset. rewrite bool_decide_eq_false_2 by done. cbn [orb].
    destruct Hlater as [-> | ->].
    + cbn [andb]. destruct (c_message self), (c_rest self); done.
    + rewrite bool_decide_eq_false_2 by (by intros [? ?]). rewrite andb_false_r.
      destruct (c_rest self); done.
Qed.

Lemma send_fixes_privacy_witness :
  c_ephemeral (send [VStr "hello"] true false ∅ fresh_session).1.2 = Some true /\
  c_ephemeral (send [VStr "again"] true false ∅ session_with_message).1.2 = Some false.
Proof.
  split.
  - destruct (send_fixes_privacy fresh_session [VStr "hello"] true false ∅)
      as [Hfirst _].
    apply (Hfirst eq_refl ∅). reflexivity.
  - destruct (send_fixes_privacy session_with_message [VStr "again"] true false ∅)
      as [_ Hlater].
    apply (Hlater false eq_refl). by left.
Defined.

(** X11. A follow-up on a session with a recorded message and a REST
    client returns and sets the privacy of the session to its own,
    whatever it was. What it calls on the client is [execute_webhook], with
    the positional arguments of [send] and the settled keywords. The same
    [send] without [follow_up] raises the [TypeError] of the branch that
    edits, and calls nothing. *)
Theorem send_follow_up self args ephemeral kwargs settled :
  is_Some (c_message self) -> is_Some (c_rest self) ->
  settle_embed kwargs = Return settled ->
  (send args ephemeral true kwargs self).1
  = (Return (), with_ephemeral self ephemeral) /\
  Forall (fun call =>
            call = execute_webhook (i_application_id (c_interaction self))
                     (i_token (c_interaction self)) args
                     (setdefault "flags" (flag_of ephemeral) settled))
         (send args ephemeral true kwargs self).2 /\
  fails_with TypeError (send args ephemeral false kwargs self).1.1 /\
  (send args ephemeral false kwargs self).2 = [].
Proof.
  intros [msg Hmsg] [client Hrest] Hsettled. rewrite !send_cases, Hsettled.
  destruct self as [i r m eph]. cbn [c_interaction c_rest c_message c_ephemeral] in *.
  subst r m. destruct eph; cbn; repeat split; by repeat constructor.
Qed.

Lemma send_follow_up_witness :
  (send [VStr "more"] true true ∅ session_with_message).1
  = (Return (), with_ephemeral session_with_message true) /\
  fails_with TypeError (send [VStr "more"] true false ∅ session_with_message).1.1.
Proof.
  destruct (send_follow_up session_with_message [VStr "more"] true ∅ ∅)
    as (Hsent & _ & Hedit & _); [vm_compute; eauto|vm_compute; eauto|reflexivity|].
  split; [exact Hsent|exact Hedit].
Defined.

(** X12. An [embed] keyword is paginated before anything else: when
    [paginate_embed] raises, [send] raises the same error, leaves the
    session as it was and makes no call; when it returns, the call of
    [send] carries no [embed] keyword, and under [embeds] the pages, or
    the [embeds] the caller passed along with [embed]. *)
Theorem send_paginates_embed self args ephemeral follow_up kwargs doc :
  kwargs !! "embed"%string = Some (VEmbed doc) ->
  (forall e, paginate_embed doc = Raise e ->
     send args ephemeral follow_up kwargs self = (Raise e, self, [])) /\
  (forall pages, paginate_embed doc = Return pages ->
     Forall (fun call =>
               call_kwargs call !! "embed"%string = None /\
               call_kwargs call !! "embeds"%string
               = Some (default (VEmbeds pages) (kwargs !! "embeds"%string)))
            (send args ephemeral follow_up kwargs self).2).
Proof.
  intros Hembed. rewrite send_cases. unfold settle_embed. rewrite Hembed.
  cbn [paginate_value]. split.
  - intros e ->. done.
  - intros pages ->. cbn [obind]. cbv zeta.
    set (settled := setdefault "embeds" (VEmbeds pages) (delete "embed"%string kwargs)).
    assert (forall flags,
              setdefault "flags" flags settled !! "embed"%string = None /\
              setdefault "flags" flags settled !! "embeds"%string
              = Some (default (VEmbeds pages) (kwargs !! "embeds"%string))) as Hkw.
    { intros flags.
      assert (settled !! "embed"%string = None /\
              settled !! "embeds"%string
              = Some (default (VEmbeds pages) (kwargs !! "embeds"%string))) as [H1 H2].
      { subst settled. unfold setdefault.
        rewrite (lookup_delete_ne kwargs "embed"%string "embeds"%string) by done.
        destruct (kwargs !! "embeds"%string) as [v|] eqn:Hembeds.
        - split; [apply lookup_delete_eq|].
          by rewrite lookup_delete_ne.
        - split; [by rewrite lookup_insert_ne, lookup_delete_eq|].
          by rewrite lookup_insert_eq. }
      unfold setdefault. destruct (settled !! "flags"%string); [by split|].
      rewrite !lookup_insert_ne by done. by split. }
    destruct (c_message self), (c_rest self), follow_up; cbn [snd];
      repeat constructor; apply Hkw.
Qed.

Lemma send_paginates_embed_witness :
  (call_kwargs <$> (send [] false false {[ "embed"%string := VEmbed doc_short ]}
                      fresh_session).2)
  = [ {[ "embeds"%string := VEmbeds [doc_short]; "flags"%string := VUndefined ]} ].
Proof.
  destruct (send_paginates_embed fresh_session [] false false
              {[ "embed"%string := VEmbed doc_short ]} doc_short) as [_ Hpages];
    [reflexivity|].
  specialize (Hpages [doc_short]). vm_compute. reflexivity.
Defined.

(** X13. The [flags] a call of [send] carries are the [flags] keyword of
    the caller when there is one, whatever [ephemeral] says; otherwise the
    ephemeral flag exactly when this [send] fixes the privacy with
    [ephemeral=True], and [UNDEFINED] in every other case. *)
Theorem send_flags self args ephemeral follow_up kwargs :
  Forall (fun call =>
            call_kwargs call !! "flags"%string =
            Some (match kwargs !! "flags"%string with
                  | Some given => given
                  | None => if fixes_privacy self follow_up && ephemeral
                            then VEphemeral else VUndefined
                  end))
         (send args ephemeral follow_up kwargs self).2.
Proof.
  rewrite send_cases.
  destruct (settle_embed kwargs) as [settled|e] eqn:Hsettled; [|constructor].
  apply settle_embed_lookup in Hsettled as (_ & Hsame & _).
  cbv zeta. fold (fixes_privacy self follow_up).
  assert (setdefault "flags"
            (if fixes_privacy self follow_up then flag_of ephemeral else VUndefined)
            settled !! "flags"%string
          = Some (match kwargs !! "flags"%string with
                  | Some given => given
                  | None => if fixes_privacy self follow_up && ephemeral
                            then VEphemeral else VUndefined
                  end)) as Hflags.
  { unfold setdefault. rewrite <- (Hsame "flags"%string) by done.
    destruct (settled !! "flags"%string) eqn:Hgiven; [done|].
    rewrite lookup_insert_eq. by destruct (fixes_privacy self follow_up), ephemeral. }
  destruct (c_message self), (c_rest self), follow_up; cbn [snd];
    repeat constructor; exact Hflags.
Qed.

(** X14. No [context] method returns a context. [Controller.context]
    raises [NotImplementedError]; the two other classes name no base class
    and have no [Context] attribute, so that theirs raise
    [AttributeError]; a call without the interaction is a [TypeError]. The
    context [RESTController.context] means to build, [Context(interaction)]
    with [rest] left at [None], could not respond either: every [send] and
    every [defer] on it raises without a call on the client, and [defer]
    has set the privacy flag before it raises. *)
Theorem rest_controller_context_cannot_respond bot_rest interaction :
  (forall self args, exists e,
     context self bot_rest args = Raise e /\
     exn_class e =
       match args, self with
       | [_], Controller => NotImplementedError
       | [_], _ => AttributeError
       | _, _ => TypeError
       end) /\
  (forall args ephemeral follow_up kwargs,
     (send args ephemeral follow_up kwargs (Context_init interaction None)).2 = [] /\
     exists e, (send args ephemeral follow_up kwargs
                  (Context_init interaction None)).1.1 = Raise e) /\
  (forall ephemeral follow_up,
     defer ephemeral follow_up (Context_init interaction None) =
     (raise AttributeError "'NoneType' object has no attribute",
      mkContext interaction None None (Some ephemeral), [])).
Proof.
  split; [|split].
  - intros self [|i [|i' args]]; destruct self; cbn; eauto.
  - intros args ephemeral follow_up kwargs. rewrite send_cases.
    destruct (settle_embed kwargs); cbn; eauto.
  - intros ephemeral follow_up. by rewrite defer_cases.
Qed.

(** X15. On a fresh context with a REST client, a [defer] followed by a
    [send] without [embed] and [flags] keywords returns, and the session
    keeps the privacy of [defer]. Both call [create_interaction_response]
    and nothing else: the [send] does not edit the deferred response, and
    what it calls carries the keywords of the caller with [flags]
    undefined, whatever [ephemeral] it is given. *)
Theorem defer_then_send bot_rest interaction deferred_ephemeral deferred_follow_up
    args ephemeral kwargs :
  kwargs !! "embed"%string = None -> kwargs !! "flags"%string = None ->
  let fresh := Context_init interaction (Some bot_rest) in
  let deferred := mkContext interaction (Some bot_rest) None (Some deferred_ephemeral) in
  (defer deferred_ephemeral deferred_follow_up fresh).1 = (Return (), deferred) /\
  (send args ephemeral false kwargs deferred).1 = (Return (), deferred) /\
  Forall (fun call => is_initial_response call = true)
    ((_ ← defer deferred_ephemeral deferred_follow_up;
      send args ephemeral false kwargs) fresh).2 /\
  Forall (fun call => call_kwargs call = <[ "flags"%string := VUndefined ]> kwargs)
    (send args ephemeral false kwargs deferred).2.
Proof.
  intros Hembed Hflags fresh deferred. subst fresh deferred.
  unfold mbind at 1, M_bind at 1.
  rewrite defer_cases. cbn [Context_init c_message c_rest c_interaction with_ephemeral].
  rewrite !send_cases. unfold settle_embed. rewrite Hembed. cbv zeta.
  cbn [c_message c_rest c_interaction c_ephemeral].
  rewrite bool_decide_eq_false_2 by done. cbn [orb andb negb app fst snd].
  unfold setdefault. rewrite Hflags.
  repeat split; by repeat constructor.
Qed.

Lemma defer_then_send_witness :
  (send [VStr "done"] true false ∅ (defer true false fresh_session).1.2).1
  = (Return (), mkContext settings_interaction (Some sample_rest) None (Some true)).
Proof.
  destruct (defer_then_send sample_rest settings_interaction true false
              [VStr "done"] true ∅) as (Hdefer & Hsend & _); [reflexivity..|].
  exact Hsend.
Defined.

(** ** The dispatcher: resolution, options, execute *)

(** X16. [resolve_command] walks the registered tree: a [KeyError] when
    the identifier of the interaction is not in the table; the top-level
    entry with the options as they are when the head option is no
    sub-command marker; otherwise the entry reached from the top-level one
    along the names of the nested markers, with the options below the last
    marker, or the [ValueError] when a name on the way is not registered
    or an entry on the way is a command. *)
Theorem resolve_command_walks registry interaction :
  resolve_command registry interaction =
  match COMMAND_ID_TO_INTERACTION registry !! i_id interaction with
  | None => Raise (mkExn KeyError [VInt (i_id interaction)])
  | Some top =>
      match i_options interaction with
      | Some (o :: _) =>
          if is_sub_command o then
            match walk top (sub_command_path o).1 with
            | Some entry => Return (entry, (sub_command_path o).2)
            | None =>
                raise ValueError ("unexpected subcommand " +:+ i_repr interaction)
            end
          else Return (top, i_options interaction)
      | _ => Return (top, i_options interaction)
      end
  end.
Proof.
  unfold resolve_command, table_lookup.
  destruct (COMMAND_ID_TO_INTERACTION registry !! i_id interaction) as [top|];
    cbn [obind]; [|done].
  destruct (i_options interaction) as [[|o rest]|]; try done.
  destruct (is_sub_command o); [|done]. apply descend_walk.
Qed.

(** X17. No dispatch reaches [execute]: [dispatch_interaction] returns
    [None] on a ping, and on an interaction of the four dispatched types
    it raises a [KeyError], a [ValueError] or a [TypeError] and issues no
    REST call, whatever the registry holds and whatever the class of
    [self]. *)
Theorem dispatch_interaction_never_executes registry snakecase self bot_rest interaction :
  match i_type interaction with
  | PING =>
      dispatch_interaction registry snakecase self bot_rest interaction
      = (Return (), [])
  | _ =>
      exists e,
        dispatch_interaction registry snakecase self bot_rest interaction
        = (Raise e, []) /\
        (exn_class e = KeyError \/ exn_class e = ValueError \/
         exn_class e = TypeError)
  end.
Proof.
  assert (forall `{Countable K} (table : gmap K node) key shown,
            exists e, dispatch_with self bot_rest table key shown = (Raise e, []) /\
              (exn_class e = KeyError \/ exn_class e = ValueError \/
               exn_class e = TypeError)) as Hwith.
  { intros K ? ? table key shown. unfold dispatch_with, table_lookup.
    destruct (table !! key); cbn; eauto 6. }
  unfold dispatch_interaction. destruct (i_type interaction); [done| |apply Hwith..].
  unfold dispatch_command.
  destruct (resolve_command registry interaction) as [[action options]|e] eqn:Hresolve.
  - cbn. eauto 6.
  - exists e. split; [done|].
    apply resolve_command_raises in Hresolve as [[_ ->]| ->]; cbn; auto.
Qed.

(** X18. The keyword options of line 224 map each normalized name to the
    value of the last option that bears it; without an option list the
    comprehension raises a [TypeError]. *)
Theorem option_mapping_last snakecase :
  option_mapping snakecase None = raise TypeError "'NoneType' object is not iterable" /\
  forall l, exists mapping,
    option_mapping snakecase (Some l) = Return mapping /\
    forall key, mapping !! key = last_value snakecase key l.
Proof.
  split; [done|]. intros l. eexists. split; [reflexivity|].
  intros key. unfold last_value.
  induction l as [|o l IH] using rev_ind; [done|].
  rewrite foldl_app. cbn [foldl]. rewrite filter_app.
  destruct (decide (snakecase (option_name o) = key)) as [<-|Hne].
  - rewrite lookup_insert_eq. rewrite filter_cons_True by done.
    rewrite filter_nil. by rewrite last_snoc.
  - rewrite lookup_insert_ne by done. rewrite IH.
    rewrite filter_cons_False by done. rewrite filter_nil. by rewrite app_nil_r.
Qed.

(** X19. [execute] leaves the session as the action left it and issues no
    REST call besides those of the action. It raises in two cases only:
    the action raised an exception that does not derive from [Exception],
    or the response, which is the value the action returned or the first
    argument of its [NozomiError], is an embed on which [paginate_embed]
    raises. *)
Theorem execute_effects action options self :
  (execute action options self).1.2 = (call action options self).1.2 /\
  (execute action options self).2 = (call action options self).2 /\
  forall e,
    (execute action options self).1.1 = Raise e <->
    ((call action options self).1.1 = Raise e /\ is_Exception e = false) \/
    (exists doc,
       (try_action action options self).1.1 = Return (VEmbed doc) /\
       paginate_embed doc = Raise e).
Proof.
  destruct (execute_silent action options self) as [Hstate Hcalls].
  split; [done|]. split; [done|]. intros e.
  assert (forall response self',
            (respond response self').1.1 = Raise e <->
            exists doc, response = VEmbed doc /\ paginate_embed doc = Raise e)
    as Hrespond.
  { intros response self'. unfold respond. unfold_M.
    assert ((exists doc, response = VEmbed doc) \/
            (forall doc, response <> VEmbed doc)) as [[doc ->]|Hother]
      by (destruct response; eauto).
    2:{ split; [|intros (doc & -> & _); by destruct (Hother doc)].
        destruct (truthy response); [|done].
        destruct response as [| | |b|z|s|doc|l]; try done.
        by destruct (Hother doc). }
    cbn [truthy].
    destruct (paginate_embed doc) as [pages|e'] eqn:Hdoc; cbn [fst].
    - split; [done|]. intros (? & [= <-] & ?). congruence.
    - split; [intros [= <-]; eauto|]. intros (? & [= <-] & ?). congruence. }
  unfold execute, try_action. unfold_M.
  destruct (call action options self) as [[[response|err] self'] calls]; cbn [fst snd].
  - specialize (Hrespond response self').
    destruct (respond response self') as [[r s] c]. cbn [fst] in *.
    rewrite Hrespond. split.
    + intros (doc & -> & Hdoc). right. eauto.
    + intros [[[=] _]|(doc & [= ->] & Hdoc)]. eauto.
  - destruct (is_NozomiError err) eqn:Hnozomi.
    + assert (is_Exception err = true) as Hexc.
      { unfold is_NozomiError, is_Exception in *. by destruct (exn_class err). }
      cbn [fst].
      specialize (Hrespond
        (match exn_args err with [] => VStr "Failed" | arg :: _ => arg end) self').
      destruct (respond _ self') as [[r s] c]. cbn [fst] in *.
      rewrite Hrespond. split.
      * intros (doc & Harg & Hdoc). right. exists doc. by rewrite Harg.
      * intros [[[= <-] ?]|(doc & [= Harg] & Hdoc)]; [congruence|eauto].
    + destruct (is_Exception err) eqn:Hexc; cbn [fst].
      * specialize (Hrespond (VStr "Internal server error") self').
        destruct (respond _ self') as [[r s] c]. cbn [fst] in *.
        rewrite Hrespond. split; [by intros (? & [=] & _)|].
        intros [[[= <-] ?]|(? & [=] & _)]; congruence.
      * split; [intros [= <-]; by left|]. intros [[[= <-] _]|(? & [=] & _)]; done.
Qed.

Lemma execute_effects_witness :
  (execute (Leaf cancelled_command) ∅ fresh_session).1.1
  = Raise (mkExn BaseException [VStr "CancelledError"]).
Proof.
  destruct (execute_effects (Leaf cancelled_command) ∅ fresh_session) as (_ & _ & Hraise).
  apply Hraise. left. split; reflexivity.
Defined.

(** ** Registration *)

(** X20. Decorating an object of an accepted type that has a [name]
    registers it under the spinal-case of that name, which is also its
    description, and replaces whatever the table held under that name,
    the other entries staying as they were; the [name] and [parent] given
    to the decorator are not used. An object without [name] makes
    [Command.__init__] raise an [AttributeError], an object of another
    type a [TypeError]. *)
Theorem command_registers spinalcase decorator_name decorator_parent decorated COMMANDS :
  CommandDecorator_call spinalcase
    (CommandDecorator_init decorator_name decorator_parent) decorated COMMANDS
  = command spinalcase decorated COMMANDS /\
  match d_type decorated, d_name decorated with
  | OtherType, _ =>
      command spinalcase decorated COMMANDS
      = raise TypeError "command can only decorate functions, methods or classes"
  | _, None =>
      command spinalcase decorated COMMANDS
      = raise AttributeError "object has no attribute 'name'"
  | _, Some n =>
      exists self registered,
        command spinalcase decorated COMMANDS = Return (self, registered) /\
        cmd_decorated self = decorated /\
        cmd_name self = spinalcase n /\ cmd_description self = spinalcase n /\
        registered !! spinalcase n = Some self /\
        forall other, other <> spinalcase n -> registered !! other = COMMANDS !! other
  end.
Proof.
  split; [done|].
  unfold command, CommandDecorator_call, Command_init, or_spinalcase.
  destruct (d_type decorated), (d_name decorated) as [n|]; try done;
    cbn [obind]; eexists _, _; (split; [reflexivity|]);
    cbn [cmd_decorated cmd_name cmd_description];
    repeat split; try apply lookup_insert_eq;
    intros other Hother; by rewrite lookup_insert_ne.
Qed.

Lemma command_registers_witness :
  exists self registered,
    command (fun s => s) named_class ∅ = Return (self, registered) /\
    cmd_name self = "ShowStats"%string /\
    registered !! "ShowStats"%string = Some self.
Proof.
  destruct (command_registers (fun s => s) None None named_class ∅)
    as (_ & self & registered & Hcommand & _ & Hname & _ & Hlookup & _).
  exists self, registered. done.
Defined.

(** ** The privacy guard of Executor.Context.send *)

(** X21. The guard of [Executor.Context.send]: without [ephemeral] it
    changes nothing; the first [ephemeral] sets the flag; once the flag is
    set, passing [ephemeral] again raises the [ValueError], also with the
    value the flag already has, unless the call is a follow-up to a
    recorded message, which sets its own; the recorded message is never
    touched. *)
Theorem Executor_send_guard_spec follow_up ephemeral executor :
  (ephemeral = None ->
   Executor_send_guard follow_up ephemeral executor = Return executor) /\
  (forall b, ephemeral = Some b -> x_ephemeral executor = None ->
     Executor_send_guard follow_up ephemeral executor
     = Return (mkExecutor (Some b) (x_message executor))) /\
  (forall b b', ephemeral = Some b' -> x_ephemeral executor = Some b ->
     Executor_send_guard follow_up ephemeral executor =
     if follow_up && bool_decide (is_Some (x_message executor))
     then Return (mkExecutor (Some b') (x_message executor))
     else raise ValueError "ephemeral has already been set, cannot reset") /\
  (forall executor',
     Executor_send_guard follow_up ephemeral executor = Return executor' ->
     x_message executor' = x_message executor).
Proof.
  destruct executor as [eph msg]. cbn [x_ephemeral x_message].
  split; [by intros ->|]. split; [|split].
  - intros b -> ->. cbn. by rewrite orb_true_r.
  - intros b b' -> ->. cbn. by destruct follow_up, msg.
  - intros executor'. unfold Executor_send_guard. cbn [x_ephemeral x_message].
    destruct ephemeral as [b|]; [|by intros [= <-]].
    destruct (_ || _); [by intros [= <-]|done].
Qed.

Lemma Executor_send_guard_spec_witness :
  Executor_send_guard false (Some false) (mkExecutor (Some false) None)
  = raise ValueError "ephemeral has already been set, cannot reset".
Proof.
  destruct (Executor_send_guard_spec false (Some false) (mkExecutor (Some false) None))
    as (_ & _ & Hset & _).
  apply (Hset false false); reflexivity.
Defined.
